(** * GAA file organiser: rule matching, conflict-resolving mover, watcher

    A shallow embedding of the Go sources

      - [src/config/config.go]      (package [config])
      - [src/processor/rules.go]    (package [processor], rule matcher)
      - the mover of package [processor] ([MoveFile], [handleConflict],
        [generateUniqueName], [copyFile])
      - [src/watcher/watcher.go]    (package [watcher], with the worker pool)

    Go strings are byte strings ([string]); the Go standard library
    functions the program calls ([strings], [path/filepath], [fmt], [os],
    [io], [time]) are modelled in the first modules, the program itself in
    the modules [config], [processor] and [watcher], which keep the names
    of the source. *)

From Stdlib Require Import ZArith String Ascii List Bool Lia DecimalString.
From stdpp Require Import gmap strings list.

Local Open Scope string_scope.

(* ===================================================================== *)
(** ** Go's [strings] package (ASCII fragment) *)
(* ===================================================================== *)

Module gostrings.

(** Lower-casing of one byte.  Go's [strings.ToLower] maps Unicode runes;
    on ASCII text, which is what the statements below evaluate it on, it
    maps [A-Z] to [a-z] and leaves every other byte alone. *)
Definition lower_byte (c : ascii) : ascii :=
  let n := nat_of_ascii c in
  if (65 <=? n)%nat && (n <=? 90)%nat then ascii_of_nat (n + 32) else c.

Fixpoint ToLower (s : string) : string :=
  match s with
  | EmptyString => EmptyString
  | String c s' => String (lower_byte c) (ToLower s')
  end.

Fixpoint HasPrefix (s prefix : string) : bool :=
  match prefix, s with
  | EmptyString, _ => true
  | String _ _, EmptyString => false
  | String p prefix', String c s' => Ascii.eqb c p && HasPrefix s' prefix'
  end.

Fixpoint Contains (s substr : string) : bool :=
  HasPrefix s substr ||
  match s with
  | EmptyString => false
  | String _ s' => Contains s' substr
  end.

Definition HasSuffix (s suffix : string) : bool :=
  let ls := String.length s in
  let lx := String.length suffix in
  (lx <=? ls)%nat && String.eqb (substring (ls - lx) lx s) suffix.

Definition TrimSuffix (s suffix : string) : string :=
  if HasSuffix s suffix
  then substring 0 (String.length s - String.length suffix) s
  else s.

(** [strings.Split(s, "/")]. *)
Fixpoint SplitSlash (s : string) : list string :=
  match s with
  | EmptyString => [EmptyString]
  | String c s' =>
      if Ascii.eqb c "/" then EmptyString :: SplitSlash s'
      else match SplitSlash s' with
           | x :: xs => String c x :: xs
           | [] => [String c EmptyString]
           end
  end.

(** [strings.Join(elems, "/")]. *)
Fixpoint JoinSlash (elems : list string) : string :=
  match elems with
  | [] => ""
  | [x] => x
  | x :: xs => x +:+ "/" +:+ JoinSlash xs
  end.

End gostrings.

(* ===================================================================== *)
(** ** Go's [path/filepath] package (Unix) *)
(* ===================================================================== *)

Module filepath.

(** [Ext]: the suffix beginning at the final dot in the final element of
    the path, empty when there is none.  Go scans backwards until a
    separator; the scan below goes forward and forgets the candidate at
    every separator. *)
Fixpoint ext_from (s acc : string) : string :=
  match s with
  | EmptyString => acc
  | String c s' =>
      if Ascii.eqb c "/" then ext_from s' ""
      else if Ascii.eqb c "." then ext_from s' s
      else ext_from s' acc
  end.

Definition Ext (path : string) : string := ext_from path "".

(** [Base]: the last element of the path; trailing separators are
    dropped first; ["."] for the empty path, ["/"] for a path of
    separators only. *)
Definition Base (path : string) : string :=
  if String.eqb path "" then "."
  else match List.last (List.filter (fun e => negb (String.eqb e ""))
                                    (gostrings.SplitSlash path)) "" with
       | EmptyString => "/"
       | e => e
       end.

(** [Clean]: the shortest equivalent path by lexical processing. *)
Fixpoint clean_elems (rooted : bool) (elems : list string) (out : list string)
  : list string :=
  match elems with
  | [] => List.rev out
  | e :: rest =>
      if String.eqb e "" || String.eqb e "." then clean_elems rooted rest out
      else if String.eqb e ".." then
        match out with
        | top :: out' =>
            if String.eqb top ".." then clean_elems rooted rest (".." :: out)
            else clean_elems rooted rest out'
        | [] =>
            if rooted then clean_elems rooted rest out
            else clean_elems rooted rest [".."]
        end
      else clean_elems rooted rest (e :: out)
  end.

Definition Clean (path : string) : string :=
  if String.eqb path "" then "."
  else
    let rooted := gostrings.HasPrefix path "/" in
    let body := gostrings.JoinSlash (clean_elems rooted (gostrings.SplitSlash path) []) in
    if rooted then "/" +:+ body
    else if String.eqb body "" then "." else body.

(** [Join(dir, name)]: the elements from the first non-empty one on are
    joined with the separator and cleaned. *)
Definition Join (dir name : string) : string :=
  if negb (String.eqb dir "") then Clean (dir +:+ "/" +:+ name)
  else if negb (String.eqb name "") then Clean name
  else "".

Fixpoint has_sep (s : string) : bool :=
  match s with
  | EmptyString => false
  | String c s' => Ascii.eqb c "/" || has_sep s'
  end.

(** [path[:i+1]] for [i] the index of the last separator. *)
Fixpoint upto_last_sep (s : string) : string :=
  match s with
  | EmptyString => ""
  | String c s' => if has_sep s then String c (upto_last_sep s') else ""
  end.

Definition Dir (path : string) : string := Clean (upto_last_sep path).

End filepath.

(* ===================================================================== *)
(** ** The pieces of [fmt] and [time] the program uses *)
(* ===================================================================== *)

Module fmt.

(** The verb [%d] on an [int]. *)
Definition d (n : Z) : string := NilZero.string_of_int (Z.to_int n).

End fmt.

Module time.

(** A wall-clock reading, as [time.Now()] returns it in the local zone. *)
Record Time := {
  Year : Z; Month : Z; Day : Z; Hour : Z; Minute : Z; Second : Z
}.

Definition pad2 (n : Z) : string :=
  if (n <? 10)%Z then "0" +:+ fmt.d n else fmt.d n.

Definition pad4 (n : Z) : string :=
  if (n <? 10)%Z then "000" +:+ fmt.d n
  else if (n <? 100)%Z then "00" +:+ fmt.d n
  else if (n <? 1000)%Z then "0" +:+ fmt.d n
  else fmt.d n.

(** [t.Format("20060102_150405")]. *)
Definition Format_20060102_150405 (t : Time) : string :=
  pad4 (Year t) +:+ pad2 (Month t) +:+ pad2 (Day t) +:+ "_" +:+
  pad2 (Hour t) +:+ pad2 (Minute t) +:+ pad2 (Second t).

End time.

(* ===================================================================== *)
(** ** The operating system: files, clock, failures, log stream *)
(* ===================================================================== *)

Module os.

(** Error numbers the kernel answers a system call with. *)
Inductive Errno :=
| ENOENT | EACCES | EPERM | EXDEV | EBUSY | ENOSPC | EIO | ENOTDIR | EISDIR
| EMFILE.

Definition strerror (e : Errno) : string :=
  match e with
  | ENOENT => "no such file or directory"
  | EACCES => "permission denied"
  | EPERM => "operation not permitted"
  | EXDEV => "invalid cross-device link"
  | EBUSY => "device or resource busy"
  | ENOSPC => "no space left on device"
  | EIO => "input/output error"
  | ENOTDIR => "not a directory"
  | EISDIR => "is a directory"
  | EMFILE => "too many open files"
  end.

(** Go [error] values: the two error types of package [os], a bare
    [syscall.Errno], and the values [fmt.Errorf] builds, without and with
    the wrapping verb. *)
Inductive error :=
| PathError (op path : string) (e : Errno)
| LinkError (op old new : string) (e : Errno)
| SyscallErrno (e : Errno)
| Errorf (msg : string)
| Wrapf (msg : string) (err : error).

(** [err.Error()]. *)
Fixpoint Error (err : error) : string :=
  match err with
  | PathError op path e => op +:+ " " +:+ path +:+ ": " +:+ strerror e
  | LinkError op old new e =>
      op +:+ " " +:+ old +:+ " " +:+ new +:+ ": " +:+ strerror e
  | SyscallErrno e => strerror e
  | Errorf msg => msg
  | Wrapf msg err => msg +:+ ": " +:+ Error err
  end.

Definition errno_of (err : error) : option Errno :=
  match err with
  | PathError _ _ e | LinkError _ _ _ e | SyscallErrno e => Some e
  | _ => None
  end.

Definition IsNotExist (err : error) : bool :=
  match errno_of err with Some ENOENT => true | _ => false end.

Definition IsPermission (err : error) : bool :=
  match errno_of err with Some EACCES | Some EPERM => true | _ => false end.

(** What a path names. *)
Inductive node :=
| File (content : string) (mode : N)
| Directory.

(** [os.FileInfo]. *)
Record FileInfo := { IsDir : bool; Size : Z; Mode : N }.

Definition info_of (n : node) : FileInfo :=
  match n with
  | File content mode =>
      {| IsDir := false; Size := Z.of_nat (String.length content); Mode := mode |}
  | Directory => {| IsDir := true; Size := 0; Mode := 493 |}
  end.

(** The system calls the program issues. *)
Inductive syscall :=
| CStat (path : string)
| CLstat (path : string)
| CMkdirAll (path : string)
| CRename (old new : string)
| CRemove (path : string)
| COpen (path : string)
| CCreate (path : string)
| CCopy (dst src : string)
| CSync (path : string)
| CFstat (path : string)
| CChmod (path : string)
| CWatch (path : string)
| CReaddirnames (path : string)
| CInotifyInit.

(** The part of the machine the program does not control: which calls
    the kernel refuses at which time (locks, permissions, mount points,
    full disks), how much a refused copy had written, and the local
    calendar. *)
Record Env := {
  fault : Z -> syscall -> option Errno;
  short_write : Z -> nat;
  localtime : Z -> time.Time
}.

Inductive Level := Debug | Info | Warn | Err.

(** What the process emits: log records (level and message; the
    structured attributes are left out) and the pauses it takes. *)
Inductive event :=
| Log (level : Level) (msg : string)
| Slept (d : Z).

(** The state the program runs against.  Paths are canonical names of
    files: the name space is flat, and links are not modelled. *)
Record World := {
  files : gmap string node;
  clock : Z;
  env : Env;
  out : list event
}.

Definition with_files (w : World) (fs : gmap string node) : World :=
  {| files := fs; clock := clock w; env := env w; out := out w |}.

Definition refused (w : World) (c : syscall) : option Errno :=
  fault (env w) (clock w) c.

(** [logger.Debug/Info/Warn/Error(msg, ...)]. *)
Definition log (level : Level) (msg : string) (w : World) : World :=
  {| files := files w; clock := clock w; env := env w;
     out := out w ++ [Log level msg] |}.

(** [time.Sleep(d)]. *)
Definition Sleep (d : Z) (w : World) : World :=
  {| files := files w; clock := (clock w + d)%Z; env := env w;
     out := out w ++ [Slept d] |}.

(** [time.Now()]. *)
Definition Now (w : World) : time.Time := localtime (env w) (clock w).

(** [os.Stat(path)]: reads, never writes. *)
Definition Stat (w : World) (path : string) : FileInfo + error :=
  match refused w (CStat path) with
  | Some e => inr (PathError "stat" path e)
  | None =>
      match files w !! path with
      | Some n => inl (info_of n)
      | None => inr (PathError "stat" path ENOENT)
      end
  end.

(** [os.Lstat(path)], as [filepath.Walk] calls it. *)
Definition Lstat (w : World) (path : string) : FileInfo + error :=
  match refused w (CLstat path) with
  | Some e => inr (PathError "lstat" path e)
  | None =>
      match files w !! path with
      | Some n => inl (info_of n)
      | None => inr (PathError "lstat" path ENOENT)
      end
  end.

(** [os.MkdirAll(path, 0755)]: nothing to do for a directory that
    exists. *)
Definition MkdirAll (path : string) (w : World) : option error * World :=
  match refused w (CMkdirAll path) with
  | Some e => (Some (PathError "mkdir" path e), w)
  | None =>
      match files w !! path with
      | Some Directory => (None, w)
      | Some (File _ _) => (Some (PathError "mkdir" path ENOTDIR), w)
      | None => (None, with_files w (<[path := Directory]> (files w)))
      end
  end.

(** [os.Rename(old, new)]: atomic; a refused call changes nothing, a
    successful one replaces what [new] named. *)
Definition Rename (old new : string) (w : World) : option error * World :=
  match refused w (CRename old new) with
  | Some e => (Some (LinkError "rename" old new e), w)
  | None =>
      match files w !! old with
      | None => (Some (LinkError "rename" old new ENOENT), w)
      | Some n => (None, with_files w (<[new := n]> (delete old (files w))))
      end
  end.

(** [os.Remove(path)]. *)
Definition Remove (path : string) (w : World) : option error * World :=
  match refused w (CRemove path) with
  | Some e => (Some (PathError "remove" path e), w)
  | None =>
      match files w !! path with
      | None => (Some (PathError "remove" path ENOENT), w)
      | Some _ => (None, with_files w (delete path (files w)))
      end
  end.

(** An open file ([*os.File]) is known by the path it was opened at. *)
Record Handle := { handle_path : string }.

(** [os.Open(path)] and [os.OpenFile(path, os.O_RDONLY, 0)]. *)
Definition Open (w : World) (path : string) : Handle + error :=
  match refused w (COpen path) with
  | Some e => inr (PathError "open" path e)
  | None =>
      match files w !! path with
      | Some _ => inl {| handle_path := path |}
      | None => inr (PathError "open" path ENOENT)
      end
  end.

(** [os.Create(path)]: creates the file or truncates it. *)
Definition Create (path : string) (w : World) : (Handle + error) * World :=
  match refused w (CCreate path) with
  | Some e => (inr (PathError "open" path e), w)
  | None =>
      match files w !! path with
      | Some Directory => (inr (PathError "open" path EISDIR), w)
      | Some (File _ mode) =>
          (inl {| handle_path := path |},
           with_files w (<[path := File "" mode]> (files w)))
      | None =>
          (inl {| handle_path := path |},
           with_files w (<[path := File "" 438]> (files w)))
      end
  end.

(** [f.Close()]: its result is never looked at by the program. *)
Definition Close (f : Handle) (w : World) : World := w.

(** [io.Copy(dst, src)]: all of the source's bytes reach the
    destination, or, when the kernel refuses part of the way, only the
    first [short_write] of them. *)
Definition Copy (dst src : Handle) (w : World) : option error * World :=
  match files w !! handle_path src, files w !! handle_path dst with
  | Some (File content _), Some (File _ mode) =>
      match refused w (CCopy (handle_path dst) (handle_path src)) with
      | Some e =>
          let n := short_write (env w) (clock w) in
          (Some (PathError "write" (handle_path dst) e),
           with_files w (<[handle_path dst := File (substring 0 n content) mode]> (files w)))
      | None =>
          (None, with_files w (<[handle_path dst := File content mode]> (files w)))
      end
  | Some Directory, _ => (Some (PathError "read" (handle_path src) EISDIR), w)
  | _, _ => (Some (PathError "read" (handle_path src) EIO), w)
  end.

(** [f.Sync()]. *)
Definition Sync (f : Handle) (w : World) : option error :=
  match refused w (CSync (handle_path f)) with
  | Some e => Some (PathError "sync" (handle_path f) e)
  | None => None
  end.

(** [f.Stat()]. *)
Definition Fstat (w : World) (f : Handle) : FileInfo + error :=
  match refused w (CFstat (handle_path f)) with
  | Some e => inr (PathError "stat" (handle_path f) e)
  | None =>
      match files w !! handle_path f with
      | Some n => inl (info_of n)
      | None => inr (PathError "stat" (handle_path f) ENOENT)
      end
  end.

(** [os.Chmod(path, mode)]. *)
Definition Chmod (path : string) (mode : N) (w : World) : option error * World :=
  match refused w (CChmod path) with
  | Some e => (Some (PathError "chmod" path e), w)
  | None =>
      match files w !! path with
      | Some (File content _) =>
          (None, with_files w (<[path := File content mode]> (files w)))
      | Some Directory => (None, w)
      | None => (Some (PathError "chmod" path ENOENT), w)
      end
  end.

End os.

(* ===================================================================== *)
(** ** Package [config] ([config.go]) *)
(* ===================================================================== *)

Module config.

(** [type Rule struct].  The fields are those of [config.go], with
    [NameContainsAll] added. *)
Record Rule := {
  Name : string;
  Extensions : list string;
  NameContains : list string;
  (** Modelled from the spec: the field [NameContainsAll] is read by
      [MatchRule] in [rules.go] but is absent from the [Rule] struct of
      [config.go]; the spec lists it as the "name-contains-all list
      (optional)" of a Rule. *)
  NameContainsAll : list string;
  NameStartsWith : list string;
  Destination : string;
  ConflictStrategy : string
}.

Record Monitor := {
  MonitorName : string;
  SourcePath : string;
  Recursive : bool;
  Rules : list Rule
}.

Record Settings := {
  LogLevel : string;
  DelayBeforeMove : string;
  MaxWorkers : Z
}.

Record Config := {
  settings : Settings;
  Monitors : list Monitor
}.

(** [ParseDelayDuration]; [time.ParseDuration] is the library's parser,
    taken as it is. *)
Definition ParseDelayDuration (ParseDuration : string -> Z + os.error) (c : Config)
  : Z + os.error :=
  match ParseDuration (DelayBeforeMove (settings c)) with
  | inr err =>
      inr (os.Errorf ("invalid duration format '" +:+ DelayBeforeMove (settings c)
                      +:+ "': " +:+ os.Error err +:+ " (example: '2s', '500ms')"))
  | inl duration =>
      if (duration <? 0)%Z
      then inr (os.Errorf ("delay_before_move cannot be negative: "
                           +:+ DelayBeforeMove (settings c)))
      else inl duration
  end.

Definition validLogLevels (level : string) : bool :=
  String.eqb level "debug" || String.eqb level "info"
  || String.eqb level "warn" || String.eqb level "error".

Definition validStrategies (strategy : string) : bool :=
  String.eqb strategy "rename" || String.eqb strategy "overwrite"
  || String.eqb strategy "skip".

(** The inner loop of [Validate], [for j, rule := range monitor.Rules]. *)
Fixpoint Validate_rules (monitor : Monitor) (j : nat) (rules : list Rule) (w : os.World)
  : option os.error * os.World :=
  match rules with
  | [] => (None, w)
  | rule :: rest =>
      if String.eqb (Name rule) "" then
        (Some (os.Errorf ("monitor '" +:+ MonitorName monitor +:+ "', rule #"
                          +:+ fmt.d (Z.of_nat j + 1) +:+ " has no name")), w)
      else if (List.length (Extensions rule) =? 0)%nat
              && (List.length (NameContains rule) =? 0)%nat
              && (List.length (NameStartsWith rule) =? 0)%nat then
        (Some (os.Errorf ("monitor '" +:+ MonitorName monitor +:+ "', rule '"
                          +:+ Name rule +:+
           "': must define at least one matching criterion (extensions, name_contains, or name_starts_with)")),
         w)
      else if String.eqb (Destination rule) "" then
        (Some (os.Errorf ("monitor '" +:+ MonitorName monitor +:+ "', rule '"
                          +:+ Name rule +:+ "' has no destination")), w)
      else if negb (validStrategies (ConflictStrategy rule)) then
        (Some (os.Errorf ("monitor '" +:+ MonitorName monitor +:+ "', rule '"
                          +:+ Name rule +:+ "': invalid conflict_strategy: "
                          +:+ ConflictStrategy rule
                          +:+ " (must be rename, overwrite, or skip)")), w)
      else
        match os.MkdirAll (Destination rule) w with
        | (Some err, w) =>
            (Some (os.Wrapf ("monitor '" +:+ MonitorName monitor +:+ "', rule '"
                             +:+ Name rule +:+ "': failed to create destination directory")
                            err), w)
        | (None, w) => Validate_rules monitor (S j) rest w
        end
  end.

(** The outer loop, [for i, monitor := range c.Monitors]. *)
Fixpoint Validate_monitors (i : nat) (monitors : list Monitor) (w : os.World)
  : option os.error * os.World :=
  match monitors with
  | [] => (None, w)
  | monitor :: rest =>
      if String.eqb (MonitorName monitor) "" then
        (Some (os.Errorf ("monitor #" +:+ fmt.d (Z.of_nat i + 1) +:+ " has no name")), w)
      else if (match os.Stat w (SourcePath monitor) with
               | inr err => os.IsNotExist err
               | inl _ => false
               end) then
        (Some (os.Errorf ("monitor '" +:+ MonitorName monitor
                          +:+ "': source_path does not exist: " +:+ SourcePath monitor)), w)
      else if (List.length (Rules monitor) =? 0)%nat then
        (Some (os.Errorf ("monitor '" +:+ MonitorName monitor +:+ "' has no rules")), w)
      else
        match Validate_rules monitor 0 (Rules monitor) w with
        | (Some err, w) => (Some err, w)
        | (None, w) => Validate_monitors (S i) rest w
        end
  end.

Definition Validate (ParseDuration : string -> Z + os.error) (c : Config) (w : os.World)
  : option os.error * os.World :=
  if negb (validLogLevels (LogLevel (settings c))) then
    (Some (os.Errorf ("invalid log_level: " +:+ LogLevel (settings c)
                      +:+ " (must be debug, info, warn, or error)")), w)
  else
    match ParseDelayDuration ParseDuration c with
    | inr err => (Some (os.Wrapf "invalid delay_before_move" err), w)
    | inl _ =>
        if (MaxWorkers (settings c) <=? 0)%Z then
          (Some (os.Errorf ("max_workers must be greater than 0, got: "
                            +:+ fmt.d (MaxWorkers (settings c)))), w)
        else if (List.length (Monitors c) =? 0)%nat then
          (Some (os.Errorf "no monitors configured"), w)
        else Validate_monitors 0 (Monitors c) w
    end.

End config.

(* ===================================================================== *)
(** ** Package [processor]: the rule matcher ([rules.go]) *)
(* ===================================================================== *)

Module processor.
Import config.

Fixpoint matchesExtension (ext : string) (extensions : list string) : bool :=
  match extensions with
  | [] => false
  | ruleExt :: rest =>
      let normalizedRuleExt := gostrings.ToLower ruleExt in
      if String.eqb ext normalizedRuleExt then true
      else matchesExtension ext rest
  end.

Fixpoint matchesContains (nameWithoutExt : string) (patterns : list string) : bool :=
  match patterns with
  | [] => false
  | pattern :: rest =>
      let normalizedPattern := gostrings.ToLower pattern in
      if gostrings.Contains nameWithoutExt normalizedPattern then true
      else matchesContains nameWithoutExt rest
  end.

Fixpoint matchesContainsAll (nameWithoutExt : string) (patterns : list string) : bool :=
  match patterns with
  | [] => true
  | pattern :: rest =>
      let normalizedPattern := gostrings.ToLower pattern in
      if negb (gostrings.Contains nameWithoutExt normalizedPattern) then false
      else matchesContainsAll nameWithoutExt rest
  end.

Fixpoint matchesStartsWith (nameWithoutExt : string) (prefixes : list string) : bool :=
  match prefixes with
  | [] => false
  | prefix :: rest =>
      let normalizedPrefix := gostrings.ToLower prefix in
      if gostrings.HasPrefix nameWithoutExt normalizedPrefix then true
      else matchesStartsWith nameWithoutExt rest
  end.

(** The body of [for i := range rules]: [continue] is the recursive call
    on the rest of the slice; the pointer [&rules[i]] the loop returns is
    the index [i] together with the rule it points to. *)
Fixpoint MatchRule_loop (ext nameWithoutExt : string) (i : nat) (rules : list Rule)
  : option (nat * Rule) :=
  match rules with
  | [] => None
  | rule :: rest =>
      let extensionMatch :=
        (List.length (Extensions rule) =? 0)%nat || matchesExtension ext (Extensions rule) in
      if negb extensionMatch then MatchRule_loop ext nameWithoutExt (S i) rest else
      let containsMatch :=
        (List.length (NameContains rule) =? 0)%nat
        || matchesContains nameWithoutExt (NameContains rule) in
      if negb containsMatch then MatchRule_loop ext nameWithoutExt (S i) rest else
      let containsAllMatch :=
        (List.length (NameContainsAll rule) =? 0)%nat
        || matchesContainsAll nameWithoutExt (NameContainsAll rule) in
      if negb containsAllMatch then MatchRule_loop ext nameWithoutExt (S i) rest else
      let startsWithMatch :=
        (List.length (NameStartsWith rule) =? 0)%nat
        || matchesStartsWith nameWithoutExt (NameStartsWith rule) in
      if negb startsWithMatch then MatchRule_loop ext nameWithoutExt (S i) rest else
      Some (i, rule)
  end.

(** The two strings [MatchRule] computes before its loop. *)
Definition MatchRule_ext (filePath : string) : string :=
  let filename := filepath.Base filePath in
  gostrings.ToLower (filepath.Ext filename).

Definition MatchRule_nameWithoutExt (filePath : string) : string :=
  let filename := filepath.Base filePath in
  let ext := gostrings.ToLower (filepath.Ext filename) in
  gostrings.ToLower (gostrings.TrimSuffix filename ext).

(** [MatchRule]; [None] is [nil]. *)
Definition MatchRule (filePath : string) (rules : list Rule) : option (nat * Rule) :=
  let filename := filepath.Base filePath in
  let ext := gostrings.ToLower (filepath.Ext filename) in
  let nameWithoutExt := gostrings.ToLower (gostrings.TrimSuffix filename ext) in
  MatchRule_loop ext nameWithoutExt 0 rules.

(** *** The mover *)

(** [copyFile]: the two deferred [Close] calls run, in reverse order, at
    every return after the file they close was opened. *)
Definition copyFile (sourcePath destPath : string) (w : os.World)
  : option os.error * os.World :=
  match os.Open w sourcePath with
  | inr err => (Some (os.Wrapf "failed to open source file" err), w)
  | inl sourceFile =>
      match os.Create destPath w with
      | (inr err, w) =>
          (Some (os.Wrapf "failed to create destination file" err),
           os.Close sourceFile w)
      | (inl destFile, w) =>
          match os.Copy destFile sourceFile w with
          | (Some err, w) =>
              let w := os.Close destFile w in
              let '(_, w) := os.Remove destPath w in
              (Some (os.Wrapf "failed to copy file content" err),
               os.Close sourceFile (os.Close destFile w))
          | (None, w) =>
              match os.Sync destFile w with
              | Some err =>
                  (Some (os.Wrapf "failed to sync destination file" err),
                   os.Close sourceFile (os.Close destFile w))
              | None =>
                  let w :=
                    match os.Fstat w sourceFile with
                    | inl sourceInfo => snd (os.Chmod destPath (os.Mode sourceInfo) w)
                    | inr _ => w
                    end in
                  (None, os.Close sourceFile (os.Close destFile w))
              end
          end
      end
  end.

(** [_, err := os.Stat(newPath); os.IsNotExist(err)]. *)
Definition stat_IsNotExist (w : os.World) (path : string) : bool :=
  match os.Stat w path with
  | inl _ => false
  | inr err => os.IsNotExist err
  end.

(** The [for] loop of [generateUniqueName].  The loop has no condition
    of its own; every turn either returns or increments [counter], and
    returns once [counter] exceeds 1000, so [fuel] turns are enough
    whenever [counter + fuel > 1000] ([None] when the turns run out). *)
Fixpoint generateUniqueName_loop (fuel : nat) (dir nameWithoutExt ext : string)
    (counter : Z) (w : os.World) : option string :=
  match fuel with
  | O => None
  | S fuel' =>
      let newName := nameWithoutExt +:+ "_" +:+ fmt.d counter +:+ ext in
      let newPath := filepath.Join dir newName in
      if stat_IsNotExist w newPath then Some newPath else
      let counter := (counter + 1)%Z in
      if (counter >? 1000)%Z then
        let timestamp := time.Format_20060102_150405 (os.Now w) in
        let newName := nameWithoutExt +:+ "_" +:+ timestamp +:+ ext in
        Some (filepath.Join dir newName)
      else generateUniqueName_loop fuel' dir nameWithoutExt ext counter w
  end.

Definition generateUniqueName_run (destPath : string) (w : os.World) : option string :=
  let dir := filepath.Dir destPath in
  let ext := filepath.Ext destPath in
  let nameWithoutExt := gostrings.TrimSuffix (filepath.Base destPath) ext in
  generateUniqueName_loop 1000 dir nameWithoutExt ext 1 w.

(** [generateUniqueName]; the loop always returns within its 1000 turns
    ([generateUniqueName_returns] below), so the default is never used. *)
Definition generateUniqueName (destPath : string) (w : os.World) : string :=
  default "" (generateUniqueName_run destPath w).

Definition unknown_strategy (strategy : string) : os.error :=
  os.Errorf ("unknown conflict strategy: " +:+ strategy +:+
             " (use 'rename' or 'overwrite')").

Definition handleConflict (destPath strategy : string) (w : os.World)
  : (string * option os.error) * os.World :=
  let filename := filepath.Base destPath in
  if String.eqb strategy "overwrite" then
    ((destPath, None), os.log os.Debug "Existing file will be overwritten" w)
  else if String.eqb strategy "rename" then
    let newDestPath := generateUniqueName destPath w in
    ((newDestPath, None), os.log os.Debug "File renamed to avoid conflict" w)
  else (("", Some (unknown_strategy strategy)), w).

(** The test [MoveFile] applies to the error of [os.Rename]. *)
Definition cross_device (err : os.error) : bool :=
  gostrings.Contains (os.Error err) "cross-device"
  || gostrings.Contains (os.Error err) "invalid cross-device link".

(** [MoveFile] is written in two halves.  The first is the function up
    to the conflict handling: it either returns from [MoveFile] ([inl],
    with what is returned) or goes on to the move with the destination
    path it settled on ([inr]). *)
Definition MoveFile_destination (sourcePath destDir conflictStrategy : string)
    (w : os.World) : (option os.error * os.World) + (string * os.World) :=
  let filename := filepath.Base sourcePath in
  match os.Stat w sourcePath with
  | inr err =>
      if os.IsNotExist err
      then inl (None, os.log os.Warn "Source file no longer exists, skipping" w)
      else inl (Some (os.Wrapf "failed to stat source file" err), w)
  | inl sourceInfo =>
      if os.IsDir sourceInfo
      then inl (None, os.log os.Warn "Source is a directory, not a file, skipping" w)
      else
        let w := os.log os.Debug "Starting file move" w in
        let destPath := filepath.Join destDir filename in
        let w := os.log os.Debug "Ensuring destination directory exists" w in
        match os.MkdirAll destDir w with
        | (Some err, w) =>
            inl (Some (os.Wrapf "failed to create destination directory" err), w)
        | (None, w) =>
            let w := os.log os.Debug "Destination directory ready" w in
            match os.Stat w destPath with
            | inl _ =>
                let w := os.log os.Debug
                  "Destination file already exists, applying conflict strategy" w in
                match handleConflict destPath conflictStrategy w with
                | ((_, Some err), w) => inl (Some err, w)
                | ((destPath, None), w) => inr (destPath, w)
                end
            | inr _ => inr (destPath, w)
            end
        end
  end.

(** The second half: [MoveFile] from [os.Rename] on. *)
Definition MoveFile_relocate (sourcePath filename destPath : string) (w : os.World)
  : option os.error * os.World :=
  let w := os.log os.Debug "Attempting to move file" w in
  match os.Rename sourcePath destPath w with
  | (Some err, w) =>
      if cross_device err then
        let w := os.log os.Debug "Cross-device move detected, using copy+delete" w in
        match copyFile sourcePath destPath w with
        | (Some err, w) => (Some (os.Wrapf "failed to copy file" err), w)
        | (None, w) =>
            let w :=
              match os.Remove sourcePath w with
              | (Some err, w) => os.log os.Warn "Failed to remove source file after copy" w
              | (None, w) => w
              end in
            (None, os.log os.Info "File moved successfully" w)
        end
      else (Some (os.Wrapf "failed to move file" err), w)
  | (None, w) => (None, os.log os.Info "File moved successfully" w)
  end.

Definition MoveFile (sourcePath destDir conflictStrategy : string) (w : os.World)
  : option os.error * os.World :=
  match MoveFile_destination sourcePath destDir conflictStrategy w with
  | inl returned => returned
  | inr (destPath, w) =>
      MoveFile_relocate sourcePath (filepath.Base sourcePath) destPath w
  end.

End processor.

(* ===================================================================== *)
(** ** Package [watcher] ([watcher.go] and the worker pool) *)
(* ===================================================================== *)

Module watcher.
Import config.

(** [fsnotify.Op], a bit mask. *)
Definition Create : Z := 1.
Definition Write : Z := 2.
Definition Remove : Z := 4.
Definition Rename : Z := 8.
Definition Chmod : Z := 16.

(** [fsnotify.Event]. *)
Record Event := { EventName : string; Op : Z }.

(** [type FileWatcher struct].  [watcher] is the set of paths the
    [fsnotify.Watcher] is subscribed to; the logger is the log stream of
    the world. *)
Record FileWatcher := {
  fw_config : Monitor;
  watcher : gset string;
  delay : Z
}.

(** [fw.watcher.Add(path)]. *)
Definition watcher_Add (path : string) (fw : FileWatcher) (w : os.World)
  : option os.error * FileWatcher :=
  match os.refused w (os.CWatch path) with
  | Some e => (Some (os.PathError "inotify_add_watch" path e), fw)
  | None =>
      match os.files w !! path with
      | None => (Some (os.PathError "inotify_add_watch" path os.ENOENT), fw)
      | Some _ =>
          (None, {| fw_config := fw_config fw;
                    watcher := {[path]} ∪ watcher fw;
                    delay := delay fw |})
      end
  end.

(** [filepath.Walk(root, fn)].  [Walk] looks at the root with
    [os.Lstat] and calls [fn] on it; a directory is read first
    ([readDirNames]: the directory is opened, its names are read and
    sorted) and [fn] is called on it with the error of the reading, if
    there is one.  [Walk] then takes the names of the directory in order,
    looks at each with [os.Lstat], and walks it in the same way, depth
    first.  It does not go into what it could not look at or could not
    read.  (The function [addPath] gives to [Walk] always returns [nil]:
    it skips no directory and does not stop the walk.) *)

(** The name [path] is below the directory [root]. *)
Definition below (root path : string) : bool :=
  let c := filepath.Clean root in
  gostrings.HasPrefix path (if String.eqb c "/" then "/" else c +:+ "/")
  && negb (String.eqb path c).

(** The error of [readDirNames(dirname)], if it has one: of [os.Open],
    or of [f.Readdirnames(-1)]. *)
Definition readDirNames_error (w : os.World) (dirname : string) : option os.error :=
  match os.Open w dirname with
  | inr err => Some err
  | inl f =>
      match os.refused w (os.CReaddirnames dirname) with
      | Some e => Some (os.PathError "readdirent" dirname e)
      | None => None
      end
  end.

(** What [Walk] calls [fn] with at [path]: the error of [Lstat]; for a
    directory, its description and the error of its reading, of which
    [fn] in [addPath] looks at the error first; for a file, its
    description. *)
Definition Walk_visit (w : os.World) (path : string)
  : string * (os.FileInfo + os.error) :=
  match os.Lstat w path with
  | inr err => (path, inr err)
  | inl info =>
      if os.IsDir info then
        match readDirNames_error w path with
        | Some err => (path, inr err)
        | None => (path, inl info)
        end
      else (path, inl info)
  end.

(** [Walk] goes into [path]: a directory it could look at and read. *)
Definition entered (w : os.World) (path : string) : bool :=
  match snd (Walk_visit w path) with
  | inl info => os.IsDir info
  | inr _ => false
  end.

(** The directories between [root] and [path], both left out: with
    [base] the name of a directory followed by a separator and [elems]
    the elements of a path below it, the directories on the way. *)
Fixpoint parents_from (base : string) (elems : list string) : list string :=
  match elems with
  | [] => []
  | e :: rest =>
      match rest with
      | [] => []
      | _ :: _ => (base +:+ e) :: parents_from (base +:+ e +:+ "/") rest
      end
  end.

Definition parents (root path : string) : list string :=
  let c := filepath.Clean root in
  let base := if String.eqb c "/" then "/" else c +:+ "/" in
  parents_from base
    (gostrings.SplitSlash
       (substring (String.length base) (String.length path - String.length base) path)).

(** The order of the walk: the names of one directory in the order of
    their bytes ([sort.Strings]), and what is in a directory right after
    the directory; that is, paths compared element by element. *)
Fixpoint elems_leb (a b : list string) : bool :=
  match a, b with
  | [], _ => true
  | _ :: _, [] => false
  | x :: a', y :: b' => if String.eqb x y then elems_leb a' b' else String.ltb x y
  end.

Definition path_leb (a b : string) : bool :=
  elems_leb (gostrings.SplitSlash a) (gostrings.SplitSlash b).

Fixpoint insert_path (p : string) (l : list string) : list string :=
  match l with
  | [] => [p]
  | q :: l' => if path_leb p q then p :: l else q :: insert_path p l'
  end.

Definition sort_paths (l : list string) : list string :=
  List.fold_right insert_path [] l.

(** The calls of [fn], in order: on the root, and, when [Walk] goes into
    the root, on every name below it that [Walk] gets to, which is one
    all of whose parents up to the root [Walk] goes into. *)
Definition Walk_visits (w : os.World) (root : string)
  : list (string * (os.FileInfo + os.error)) :=
  Walk_visit w root ::
  (if entered w root then
     List.map (Walk_visit w)
       (sort_paths
          (List.filter
             (fun p => below root p && List.forallb (entered w) (parents root p))
             (List.map fst (map_to_list (os.files w)))))
   else []).

(** The function literal [addPath] hands to [filepath.Walk]. *)
Definition addPath_visit (path : string) (walkPath : string)
    (info : os.FileInfo + os.error) (st : FileWatcher * os.World)
  : FileWatcher * os.World :=
  let '(fw, w) := st in
  match info with
  | inr err => (fw, os.log os.Warn "Error walking path" w)
  | inl info =>
      if os.IsDir info && negb (gostrings.HasPrefix (filepath.Base walkPath) ".") then
        if negb (String.eqb walkPath path) then
          match watcher_Add walkPath fw w with
          | (Some err, fw) => (fw, os.log os.Warn "Failed to watch subdirectory" w)
          | (None, fw) => (fw, os.log os.Debug "Watching subdirectory" w)
          end
        else (fw, w)
      else (fw, w)
  end.

Definition addPath (path : string) (recursive : bool) (fw : FileWatcher) (w : os.World)
  : option os.error * (FileWatcher * os.World) :=
  match watcher_Add path fw w with
  | (Some err, fw) => (Some err, (fw, w))
  | (None, fw) =>
      let w := os.log os.Debug "Watching path" w in
      if recursive then
        (None, List.fold_left (fun st v => addPath_visit path (fst v) (snd v) st)
                              (Walk_visits w path) (fw, w))
      else (None, (fw, w))
  end.

(** [fsnotify.NewWatcher()]: the kernel is asked for an inotify
    instance, and its refusal is the error returned; the new watcher has
    no subscription. *)
Definition fsnotify_NewWatcher (w : os.World) : gset string + os.error :=
  match os.refused w os.CInotifyInit with
  | Some e => inr (os.SyscallErrno e)
  | None => inl ∅
  end.

(** [NewFileWatcher]; the [fsWatcher.Close()] of the second failure
    leaves nothing behind. *)
Definition NewFileWatcher (monitor : Monitor) (delay : Z) (w : os.World)
  : (FileWatcher + os.error) * os.World :=
  match fsnotify_NewWatcher w with
  | inr err => (inr (os.Wrapf "failed to create fsnotify watcher" err), w)
  | inl fsWatcher =>
      let fw := {| fw_config := monitor; watcher := fsWatcher; delay := delay |} in
      match addPath (SourcePath monitor) (Recursive monitor) fw w with
      | (Some err, (_, w)) => (inr (os.Wrapf "failed to watch path" err), w)
      | (None, (fw, w)) => (inl fw, w)
      end
  end.

Definition tempExtensions : list string :=
  [".tmp"; ".temp"; ".crdownload"; ".part"; ".download"; ".partial"].

Definition isTempFile (filename : string) : bool :=
  let lowerFilename := gostrings.ToLower filename in
  List.existsb (fun ext => gostrings.HasSuffix lowerFilename ext) tempExtensions.

Definition maxRetries : Z := 3.

(** The [for i := 0; i < maxRetries; i++] loop of [IsFileReady]:
    [todo] is the number of turns left, [maxRetries - i]; leaving the
    loop is the [return false] after it. *)
Fixpoint IsFileReady_loop (todo : nat) (i : Z) (fw : FileWatcher) (path : string)
    (w : os.World) : bool * os.World :=
  match todo with
  | O => (false, w)
  | S todo' =>
      match os.Open w path with
      | inl file =>
          let w := os.Close file w in
          match os.Stat w path with
          | inr err => (false, os.log os.Debug "File disappeared during check" w)
          | inl fileInfo =>
              let w := if (os.Size fileInfo =? 0)%Z
                       then os.log os.Debug "File has zero size" w else w in
              (true, w)
          end
      | inr err =>
          if os.IsNotExist err || os.IsPermission err then
            (false, os.log os.Debug "File not accessible" w)
          else
            let w := if (i <? maxRetries - 1)%Z
                     then os.Sleep (delay fw) (os.log os.Debug "File busy, retrying..." w)
                     else w in
            IsFileReady_loop todo' (i + 1)%Z fw path w
      end
  end.

Definition IsFileReady (fw : FileWatcher) (path : string) (w : os.World)
  : bool * os.World :=
  IsFileReady_loop (Z.to_nat maxRetries) 0 fw path w.

Definition has (op flag : Z) : bool := (Z.land op flag =? flag)%Z.

Definition handleEvent (event : Event) (fw : FileWatcher) (w : os.World)
  : FileWatcher * os.World :=
  if has (Op event) Chmod then (fw, w) else
  if negb (has (Op event) Create) && negb (has (Op event) Write) then (fw, w) else
  match os.Stat w (EventName event) with
  | inr err =>
      if negb (os.IsNotExist err)
      then (fw, os.log os.Warn "Failed to stat file" w)
      else (fw, w)
  | inl fileInfo =>
      if os.IsDir fileInfo then
        if Recursive (fw_config fw) && has (Op event) Create then
          match watcher_Add (EventName event) fw w with
          | (Some err, fw) => (fw, os.log os.Warn "Failed to watch new subdirectory" w)
          | (None, fw) => (fw, os.log os.Debug "Now watching new subdirectory" w)
          end
        else (fw, w)
      else
        let filename := filepath.Base (EventName event) in
        if gostrings.HasPrefix filename "." then
          (fw, os.log os.Debug "Ignoring hidden file" w)
        else if isTempFile filename then
          (fw, os.log os.Debug "Ignoring temporary file" w)
        else
          let w := os.log os.Debug "File event detected" w in
          match IsFileReady fw (EventName event) w with
          | (true, w) => (fw, os.log os.Info "File ready for processing" w)
          | (false, w) => (fw, os.log os.Warn "File not ready or locked" w)
          end
  end.

(** [type Job struct]. *)
Record Job := { FilePath : string; JobRules : list Rule }.

(** [type WorkerPool struct]; [jobsCh] is the buffered channel, oldest
    job first, of capacity [2 * workers]. *)
Record WorkerPool := { jobsCh : list Job; workers : Z }.

Definition NewWorkerPool (workers : Z) : WorkerPool :=
  {| jobsCh := []; workers := workers |}.

(** [Submit]: the job is sent on the channel at once when there is
    room; otherwise a warning is logged and the sender waits for room.
    The wait is not shown: a queue longer than the capacity stands for
    the senders that are still waiting. *)
Definition Submit (job : Job) (wp : WorkerPool) (w : os.World)
  : WorkerPool * os.World :=
  if (Z.of_nat (List.length (jobsCh wp)) <? workers wp * 2)%Z then
    ({| jobsCh := jobsCh wp ++ [job]; workers := workers wp |},
     os.log os.Debug "Job submitted to worker pool" w)
  else
    ({| jobsCh := jobsCh wp ++ [job]; workers := workers wp |},
     os.log os.Warn "Worker pool channel full, job may be delayed" w).

(** The function literal a worker runs for each job it receives. *)
Definition worker_job (job : Job) (w : os.World) : os.World :=
  let w := os.log os.Debug "Worker processing file" w in
  match processor.MatchRule (FilePath job) (JobRules job) with
  | None => os.log os.Debug "No matching rule for file" w
  | Some (_, rule) =>
      let w := os.log os.Info "Worker matched rule" w in
      match processor.MoveFile (FilePath job) (Destination rule)
                               (ConflictStrategy rule) w with
      | (Some err, w) => os.log os.Err "Worker failed to move file" w
      | (None, w) => os.log os.Info "Worker completed job" w
      end
  end.

End watcher.

(* ===================================================================== *)
(** ** The matcher by extension alone ([src/unnamed/part_000]) *)
(* ===================================================================== *)

(** A second source file of package [processor] defines [MatchRule] on
    the extension lists only. *)
Module part_000.
Import config.

(** The inner loop, [for _, ruleExt := range rule.Extensions]: [true]
    when it returns the rule. *)
Fixpoint MatchRule_extensions (ext : string) (extensions : list string) : bool :=
  match extensions with
  | [] => false
  | ruleExt :: rest =>
      let normalizedRuleExt := gostrings.ToLower ruleExt in
      if String.eqb ext normalizedRuleExt then true
      else MatchRule_extensions ext rest
  end.

(** The outer loop, [for i := range rules]. *)
Fixpoint MatchRule_loop (ext : string) (i : nat) (rules : list Rule)
  : option (nat * Rule) :=
  match rules with
  | [] => None
  | rule :: rest =>
      if MatchRule_extensions ext (Extensions rule) then Some (i, rule)
      else MatchRule_loop ext (S i) rest
  end.

Definition MatchRule (filePath : string) (rules : list Rule) : option (nat * Rule) :=
  let filename := filepath.Base filePath in
  let ext := filepath.Ext filename in
  let ext := gostrings.ToLower ext in
  if String.eqb ext "" then None
  else MatchRule_loop ext 0 rules.

End part_000.

(* ===================================================================== *)
(** ** The notions the statements are written with

    [predicates_hold], [rule_matches] and [unique_name] say what the
    specification says, in its words; the others name what the proofs
    and statements below talk about. *)
(* ===================================================================== *)

Module spec.
Import config.

(** "A predicate group is vacuously true if its list is empty": the four
    groups of a rule, on the extension and the name the matcher has
    computed from the file name. *)
Definition predicates_hold (ext nameWithoutExt : string) (r : Rule) : Prop :=
  (Extensions r = [] ∨ ∃ e, e ∈ Extensions r ∧ ext = gostrings.ToLower e)
  ∧ (NameContains r = []
     ∨ ∃ p, p ∈ NameContains r
            ∧ gostrings.Contains nameWithoutExt (gostrings.ToLower p) = true)
  ∧ (NameContainsAll r = []
     ∨ ∀ p, p ∈ NameContainsAll r
            → gostrings.Contains nameWithoutExt (gostrings.ToLower p) = true)
  ∧ (NameStartsWith r = []
     ∨ ∃ p, p ∈ NameStartsWith r
            ∧ gostrings.HasPrefix nameWithoutExt (gostrings.ToLower p) = true).

(** A rule fully matches a file. *)
Definition rule_matches (filePath : string) (r : Rule) : Prop :=
  predicates_hold (processor.MatchRule_ext filePath)
                  (processor.MatchRule_nameWithoutExt filePath) r.

(** The four tests of one turn of the loop of [MatchRule], as one
    boolean. *)
Definition rule_matchesb (ext name : string) (r : Rule) : bool :=
  ((List.length (Extensions r) =? 0)%nat || processor.matchesExtension ext (Extensions r))
  && ((List.length (NameContains r) =? 0)%nat
      || processor.matchesContains name (NameContains r))
  && ((List.length (NameContainsAll r) =? 0)%nat
      || processor.matchesContainsAll name (NameContainsAll r))
  && ((List.length (NameStartsWith r) =? 0)%nat
      || processor.matchesStartsWith name (NameStartsWith r)).

(** What [Validate] asks of the predicates of a rule. *)
Definition has_criterion (r : Rule) : Prop :=
  Extensions r ≠ [] ∨ NameContains r ≠ [] ∨ NameStartsWith r ≠ [].

(** The counters the rename strategy may try. *)
Definition counters : list Z := List.map Z.of_nat (List.seq 1 1000).

(** "Appending [_<counter>] before the extension, counter starting at 1,
    incrementing until a free name is found, bounded at 1000 attempts,
    after which fall back to appending a timestamp". *)
Definition unique_name (destPath : string) (w : os.World) : string :=
  let dir := filepath.Dir destPath in
  let ext := filepath.Ext destPath in
  let name := gostrings.TrimSuffix (filepath.Base destPath) ext in
  let candidate (k : Z) := filepath.Join dir (name +:+ "_" +:+ fmt.d k +:+ ext) in
  match List.find (fun k => processor.stat_IsNotExist w (candidate k)) counters with
  | Some k => candidate k
  | None =>
      filepath.Join dir
        (name +:+ "_" +:+ time.Format_20060102_150405 (os.Now w) +:+ ext)
  end.

(** An open for reading that fails for a reason other than a missing
    file or a denied permission: the file is held by its writer. *)
Definition busy (w : os.World) (path : string) : Prop :=
  ∃ err, os.Open w path = inr err
         ∧ os.IsNotExist err = false ∧ os.IsPermission err = false.

(** What [IsFileReady] does between two attempts. *)
Definition retry (fw : watcher.FileWatcher) (w : os.World) : os.World :=
  os.Sleep (watcher.delay fw) (os.log os.Debug "File busy, retrying..." w).

(** The watcher, subscribed to one more path. *)
Definition subscribed (path : string) (fw : watcher.FileWatcher)
  : watcher.FileWatcher :=
  {| watcher.fw_config := watcher.fw_config fw;
     watcher.watcher := {[path]} ∪ watcher.watcher fw;
     watcher.delay := watcher.delay fw |}.

(** The second world differs from the first at most in what [path]
    names: same clock, same environment, same output, same files under
    every other name. *)
Definition touches_only (path : string) (w w' : os.World) : Prop :=
  os.clock w' = os.clock w ∧ os.env w' = os.env w ∧ os.out w' = os.out w
  ∧ ∀ p, p ≠ path → os.files w' !! p = os.files w !! p.

(** What a configuration [Validate] accepts is made of. *)
Definition valid_rule (r : Rule) : Prop :=
  Name r ≠ "" ∧ has_criterion r ∧ Destination r ≠ ""
  ∧ ConflictStrategy r ∈ ["rename"; "overwrite"; "skip"].

Definition valid_monitor (m : Monitor) : Prop :=
  MonitorName m ≠ "" ∧ Rules m ≠ [] ∧ ∀ r, r ∈ Rules m → valid_rule r.

(** The second world has everything the first has, under the same
    names, and differs from it in its files only. *)
Definition extends (w w' : os.World) : Prop :=
  os.clock w' = os.clock w ∧ os.env w' = os.env w ∧ os.out w' = os.out w
  ∧ ∀ p n, os.files w !! p = Some n → os.files w' !! p = Some n.

(** A rule with its patterns spelt in lower case. *)
Definition lower_rule (r : Rule) : Rule :=
  {| Name := Name r;
     Extensions := List.map gostrings.ToLower (Extensions r);
     NameContains := List.map gostrings.ToLower (NameContains r);
     NameContainsAll := List.map gostrings.ToLower (NameContainsAll r);
     NameStartsWith := List.map gostrings.ToLower (NameStartsWith r);
     Destination := Destination r;
     ConflictStrategy := ConflictStrategy r |}.

(** A rule of the kind the matcher by extension knows: extensions, none
    of them empty, and no pattern on the name. *)
Definition by_extension_only (r : Rule) : Prop :=
  Extensions r ≠ [] ∧ ("" ∉ Extensions r)
  ∧ NameContains r = [] ∧ NameContainsAll r = [] ∧ NameStartsWith r = [].

End spec.

(* ===================================================================== *)
(** ** Concrete rules, worlds and events *)
(* ===================================================================== *)

Module examples.
Import config.

Definition rule (exts contains containsAll startsWith : list string)
    (dest strategy : string) : Rule :=
  {| Name := "r"; Extensions := exts; NameContains := contains;
     NameContainsAll := containsAll; NameStartsWith := startsWith;
     Destination := dest; ConflictStrategy := strategy |}.

(** "Extension pdf and prefix report". *)
Definition pdf_reports : Rule := rule [".pdf"] [] [] ["report"] "/out" "rename".

(** A rule on the name alone. *)
Definition named_pdf : Rule := rule [] ["pdf"] [] [] "/out" "rename".


(** A rule whose only criterion is the contains-all list. *)
Definition only_contains_all : Rule := rule [] [] ["a"] [] "/out" "rename".

(** A reading of the calendar, and the environment whose refusals are
    the ones listed, at any time. *)
Definition noon : time.Time :=
  {| time.Year := 2026; time.Month := 1; time.Day := 22;
     time.Hour := 14; time.Minute := 30; time.Second := 45 |}.

Definition syscall_eqb (a b : os.syscall) : bool :=
  match a, b with
  | os.CStat p, os.CStat q | os.CLstat p, os.CLstat q
  | os.CMkdirAll p, os.CMkdirAll q | os.CRemove p, os.CRemove q
  | os.COpen p, os.COpen q | os.CCreate p, os.CCreate q
  | os.CSync p, os.CSync q | os.CFstat p, os.CFstat q
  | os.CChmod p, os.CChmod q | os.CWatch p, os.CWatch q
  | os.CReaddirnames p, os.CReaddirnames q => String.eqb p q
  | os.CInotifyInit, os.CInotifyInit => true
  | os.CRename p p', os.CRename q q' | os.CCopy p p', os.CCopy q q' =>
      String.eqb p q && String.eqb p' q'
  | _, _ => false
  end.

Definition refusing (table : list (os.syscall * os.Errno)) : os.Env :=
  {| os.fault := fun _ c =>
       snd <$> List.find (fun entry => syscall_eqb (fst entry) c) table;
     os.short_write := fun _ => 2%nat;
     os.localtime := fun _ => noon |}.

Definition world (fs : list (string * os.node)) (e : os.Env) : os.World :=
  {| os.files := list_to_map fs; os.clock := 0; os.env := e; os.out := [] |}.

(** [/in/a.pdf] is to be moved to [/out], where an [a.pdf] already is. *)
Definition conflict_files : list (string * os.node) :=
  [("/in", os.Directory); ("/in/a.pdf", os.File "new bytes" 420);
   ("/out", os.Directory); ("/out/a.pdf", os.File "old bytes" 384)].

(** [/in/a.pdf] is to be moved to [/out], which is empty. *)
Definition free_files : list (string * os.node) :=
  [("/in", os.Directory); ("/in/a.pdf", os.File "new bytes" 420);
   ("/out", os.Directory)].

(** [/in] and [/out] are on different devices: the kernel refuses the
    rename with [EXDEV]; in the second environment the disk of [/out] is
    full as well, in the third the source cannot be removed. *)
Definition across_devices : os.Env :=
  refusing [(os.CRename "/in/a.pdf" "/out/a.pdf", os.EXDEV)].

Definition across_devices_disk_full : os.Env :=
  refusing [(os.CRename "/in/a.pdf" "/out/a.pdf", os.EXDEV);
            (os.CCopy "/out/a.pdf" "/in/a.pdf", os.ENOSPC)].

Definition across_devices_source_kept : os.Env :=
  refusing [(os.CRename "/in/a.pdf" "/out/a.pdf", os.EXDEV);
            (os.CRemove "/in/a.pdf", os.EACCES)].

(** [/in] and [/out] are on different devices, the disk of [/out] is
    full, and what is in [/out] may not be removed. *)
Definition across_devices_disk_full_locked : os.Env :=
  refusing [(os.CRename "/in/a.pdf" "/out/a.pdf", os.EXDEV);
            (os.CCopy "/out/a.pdf" "/in/a.pdf", os.ENOSPC);
            (os.CRemove "/out/a.pdf", os.EACCES)].

(** A monitor of [/in], and its watcher at work. *)
Definition inbox (recursive : bool) : Monitor :=
  {| MonitorName := "inbox"; SourcePath := "/in"; Recursive := recursive;
     Rules := [pdf_reports; rule [".pdf"] [] [] [] "/out" "rename"] |}.

Definition inbox_watcher (recursive : bool) : watcher.FileWatcher :=
  {| watcher.fw_config := inbox recursive;
     watcher.watcher := {["/in"]};
     watcher.delay := 2000000000 |}.

(** [/in] with a hidden directory and an empty file in it. *)
Definition inbox_files : list (string * os.node) :=
  [("/in", os.Directory); ("/in/.cache", os.Directory);
   ("/in/.cache/objects", os.Directory);
   ("/in/a.pdf", os.File "new bytes" 420); ("/in/empty.txt", os.File "" 420);
   ("/in/.hidden.pdf", os.File "x" 420); ("/out", os.Directory)].

(** The writer of [/in/a.pdf] holds the file for good. *)
Definition held_by_writer : os.Env := refusing [(os.COpen "/in/a.pdf", os.EBUSY)].

(** [/in/a.pdf] may not be read. *)
Definition unreadable : os.Env := refusing [(os.COpen "/in/a.pdf", os.EACCES)].

(** The user has used up the inotify instances. *)
Definition no_inotify : os.Env := refusing [(os.CInotifyInit, os.EMFILE)].

(** A configuration with one monitor, and a duration parser that reads
    every text as two seconds. *)
Definition two_seconds (text : string) : Z + os.error := inl 2000000000%Z.

Definition config_of (monitor : Monitor) : Config :=
  {| settings := {| LogLevel := "info"; DelayBeforeMove := "2s"; MaxWorkers := 4 |};
     Monitors := [monitor] |}.

Definition bananas : Monitor :=
  {| MonitorName := "inbox"; SourcePath := "/in"; Recursive := false;
     Rules := [only_contains_all] |}.

(** The creation of [/in/a.pdf], and the job it should become. *)
Definition a_pdf_created : watcher.Event :=
  {| watcher.EventName := "/in/a.pdf"; watcher.Op := watcher.Create |}.

Definition a_pdf_job : watcher.Job :=
  {| watcher.FilePath := "/in/a.pdf"; watcher.JobRules := Rules (inbox false) |}.

(** [/out] holds [a.pdf] and [a_1.pdf] to [a_1000.pdf]. *)
Definition crowded_files : list (string * os.node) :=
  ("/out", os.Directory) :: ("/out/a.pdf", os.File "old bytes" 384)
  :: List.map (fun k => ("/out/a_" +:+ fmt.d k +:+ ".pdf", os.File "" 420))
       spec.counters.

(** A rule for archives. *)
Definition archives : Rule := rule [".zip"] [] [] [] "/zips" "rename".

(** [/in/a.pdf] is gone by the time the worker gets to it. *)
Definition vanished_files : list (string * os.node) :=
  [("/in", os.Directory); ("/out", os.Directory);
   ("/out/a.pdf", os.File "old bytes" 384)].

(** A disk of [/out] that refuses the sync. *)
Definition across_devices_no_sync : os.Env :=
  refusing [(os.CRename "/in/a.pdf" "/out/a.pdf", os.EXDEV);
            (os.CSync "/out/a.pdf", os.EIO)].

(** A configuration whose one rule asks for the strategy [skip] and for
    a destination that is not there yet. *)
Definition skipping : Monitor :=
  {| MonitorName := "inbox"; SourcePath := "/in"; Recursive := false;
     Rules := [rule [".pdf"] [] [] [] "/archive" "skip"] |}.

(** The report rule, shouted. *)
Definition PDF_REPORTS : Rule := rule [".PDF"] [] [] ["REPORT"] "/out" "rename".

End examples.

(* ===================================================================== *)
(** ** The rule matcher *)
(* ===================================================================== *)

Section Matcher.
Import config.

Lemma length_eqb_0 {A} (l : list A) : (List.length l =? 0)%nat = true ↔ l = [].
Proof. destruct l; simpl; split; intros H; congruence. Qed.

Lemma matchesExtension_spec ext l :
  processor.matchesExtension ext l = true
  ↔ ∃ e, e ∈ l ∧ ext = gostrings.ToLower e.
Proof.
  induction l as [|x l IH]; simpl.
  - split; [discriminate | intros (e & He & _); inversion He].
  - destruct (String.eqb_spec ext (gostrings.ToLower x)) as [Heq | Hne].
    + split; [intros _; exists x; split; [left | assumption] | reflexivity].
    + rewrite IH. split.
      * intros (e & He & Hx). exists e. split; [right |]; assumption.
      * intros (e & He & Hx). inversion He; subst; [contradiction | eauto].
Qed.

Lemma matchesContains_spec name l :
  processor.matchesContains name l = true
  ↔ ∃ p, p ∈ l ∧ gostrings.Contains name (gostrings.ToLower p) = true.
Proof.
  induction l as [|x l IH]; simpl.
  - split; [discriminate | intros (e & He & _); inversion He].
  - destruct (gostrings.Contains name (gostrings.ToLower x)) eqn:Hx.
    + split; [intros _; exists x; split; [left | assumption] | reflexivity].
    + rewrite IH. split.
      * intros (e & He & Hc). exists e. split; [right |]; assumption.
      * intros (e & He & Hc). inversion He; subst; [congruence | eauto].
Qed.

Lemma matchesContainsAll_spec name l :
  processor.matchesContainsAll name l = true
  ↔ ∀ p, p ∈ l → gostrings.Contains name (gostrings.ToLower p) = true.
Proof.
  induction l as [|x l IH]; simpl.
  - split; [intros _ p Hp; inversion Hp | reflexivity].
  - destruct (gostrings.Contains name (gostrings.ToLower x)) eqn:Hx; simpl.
    + rewrite IH. split.
      * intros H p Hp. inversion Hp; subst; auto.
      * intros H p Hp. apply H. now right.
    + split; [discriminate |]. intros H.
      rewrite <- Hx. apply H. now left.
Qed.

Lemma matchesStartsWith_spec name l :
  processor.matchesStartsWith name l = true
  ↔ ∃ p, p ∈ l ∧ gostrings.HasPrefix name (gostrings.ToLower p) = true.
Proof.
  induction l as [|x l IH]; simpl.
  - split; [discriminate | intros (e & He & _); inversion He].
  - destruct (gostrings.HasPrefix name (gostrings.ToLower x)) eqn:Hx.
    + split; [intros _; exists x; split; [left | assumption] | reflexivity].
    + rewrite IH. split.
      * intros (e & He & Hc). exists e. split; [right |]; assumption.
      * intros (e & He & Hc). inversion He; subst; [congruence | eauto].
Qed.

Lemma rule_matchesb_spec ext name r :
  spec.rule_matchesb ext name r = true ↔ spec.predicates_hold ext name r.
Proof.
  unfold spec.rule_matchesb, spec.predicates_hold.
  rewrite !andb_true_iff, !orb_true_iff, !length_eqb_0.
  rewrite matchesExtension_spec, matchesContains_spec,
    matchesContainsAll_spec, matchesStartsWith_spec.
  tauto.
Qed.

Lemma MatchRule_loop_cons ext name i r rest :
  processor.MatchRule_loop ext name i (r :: rest)
  = if spec.rule_matchesb ext name r then Some (i, r)
    else processor.MatchRule_loop ext name (S i) rest.
Proof.
  unfold spec.rule_matchesb. simpl.
  destruct (_ || processor.matchesExtension _ _); simpl; [|reflexivity].
  destruct (_ || processor.matchesContains _ _); simpl; [|reflexivity].
  destruct (_ || processor.matchesContainsAll _ _); simpl; [|reflexivity].
  destruct (_ || processor.matchesStartsWith _ _); reflexivity.
Qed.


Lemma MatchRule_loop_None ext name rules : ∀ i,
  processor.MatchRule_loop ext name i rules = None
  ↔ ∀ r, r ∈ rules → spec.rule_matchesb ext name r = false.
Proof.
  induction rules as [|x rules IH]; intros i.
  - simpl. split; [intros _ r Hr; inversion Hr | reflexivity].
  - rewrite MatchRule_loop_cons.
    destruct (spec.rule_matchesb ext name x) eqn:Hx.
    + split; [discriminate |]. intros H.
      specialize (H x ltac:(left)). congruence.
    + rewrite IH. split.
      * intros H r Hr. inversion Hr; subst; auto.
      * intros H r Hr. apply H. now right.
Qed.

Lemma not_matches_iff ext name r :
  spec.rule_matchesb ext name r = false ↔ ¬ spec.predicates_hold ext name r.
Proof.
  rewrite <- rule_matchesb_spec.
  destruct (spec.rule_matchesb ext name r); split; intros H;
    try discriminate; try reflexivity; try (intros H'; discriminate).
  exfalso. now apply H.
Qed.



End Matcher.

(** The example of the specification holds: [REPORT.PDF] matches a rule
    that asks for the extension [.pdf] and the prefix [report]. *)
Example MatchRule_REPORT_PDF :
  processor.MatchRule "/downloads/REPORT.PDF" [examples.pdf_reports]
  = Some (0%nat, examples.pdf_reports).
Proof. reflexivity. Qed.

(** C2.  The name the predicates are tested against is not the file name
    "with its extension removed" once the extension has an upper-case
    letter: [MatchRule] trims the lower-cased extension off the file name
    as it was spelt, which trims nothing.  The name of [notes.PDF] is
    [notes.pdf], so a rule on the name alone that asks for [pdf] matches
    [notes.PDF] and does not match [notes.pdf]: the name predicates are
    not case-insensitive on the file name. *)
Theorem MatchRule_name_keeps_uppercase_extension :
  processor.MatchRule_nameWithoutExt "notes.PDF" = "notes.pdf"
  ∧ processor.MatchRule_nameWithoutExt "notes.pdf" = "notes"
  ∧ processor.MatchRule "notes.PDF" [examples.named_pdf]
    = Some (0%nat, examples.named_pdf)
  ∧ processor.MatchRule "notes.pdf" [examples.named_pdf] = None.
Proof. repeat split. Qed.

(* ===================================================================== *)
(** ** Unique names for the rename strategy *)
(* ===================================================================== *)

Section UniqueName.
Variables (dir name ext : string) (w : os.World).

Let candidate (k : Z) : string :=
  filepath.Join dir (name +:+ "_" +:+ fmt.d k +:+ ext).

Let fallback : string :=
  filepath.Join dir
    (name +:+ "_" +:+ time.Format_20060102_150405 (os.Now w) +:+ ext).

(** With the counter at [k] and enough turns left to reach 1000, the loop
    returns the first free candidate from [k] on, or the timestamped name
    when the candidates up to 1000 are all taken. *)
Lemma generateUniqueName_loop_spec : ∀ (fuel k : nat),
  (1 <= k <= 1000)%nat → (1001 <= fuel + k)%nat →
  processor.generateUniqueName_loop fuel dir name ext (Z.of_nat k) w
  = Some match List.find (fun j => processor.stat_IsNotExist w (candidate j))
                         (List.map Z.of_nat (List.seq k (1001 - k))) with
         | Some j => candidate j
         | None => fallback
         end.
Proof.
  induction fuel as [|fuel IH]; intros k Hk Hfuel; [lia |].
  replace (1001 - k)%nat with (S (1000 - k)) by lia.
  cbn [processor.generateUniqueName_loop List.seq List.map List.find].
  fold (candidate (Z.of_nat k)).
  destruct (processor.stat_IsNotExist w (candidate (Z.of_nat k))); [reflexivity |].
  destruct (Z.gtb_spec (Z.of_nat k + 1) 1000) as [Hgt | Hle].
  - replace (1000 - k)%nat with 0%nat by lia. reflexivity.
  - replace (Z.of_nat k + 1)%Z with (Z.of_nat (S k)) by lia.
    rewrite IH by lia.
    replace (1001 - S k)%nat with (1000 - k)%nat by lia. reflexivity.
Qed.

End UniqueName.

(** The loop of [generateUniqueName] always returns within the 1000
    turns it is given. *)
Lemma generateUniqueName_returns destPath w :
  processor.generateUniqueName_run destPath w = Some (spec.unique_name destPath w).
Proof.
  unfold processor.generateUniqueName_run, spec.unique_name.
  change 1%Z with (Z.of_nat 1).
  rewrite generateUniqueName_loop_spec by lia.
  reflexivity.
Qed.

Example generateUniqueName_first_conflict :
  processor.generateUniqueName "/out/a.pdf"
    (examples.world examples.conflict_files (examples.refusing []))
  = "/out/a_1.pdf".
Proof. reflexivity. Qed.

Example generateUniqueName_second_conflict :
  processor.generateUniqueName "/out/a.pdf"
    (examples.world (("/out/a_1.pdf", os.File "" 420) :: examples.conflict_files)
       (examples.refusing []))
  = "/out/a_2.pdf".
Proof. reflexivity. Qed.

Example generateUniqueName_thousand_conflicts :
  processor.generateUniqueName "/out/a.pdf"
    (examples.world examples.crowded_files (examples.refusing []))
  = "/out/a_20260122_143045.pdf".
Proof. vm_compute. reflexivity. Qed.

(** C7.  For every destination path, the name the rename strategy
    generates is the path with [_<counter>] put before the extension,
    for the first counter from 1 to 1000 whose name is not present on
    disk; when the 1000 names are all taken, it is the path with
    [_<timestamp>] put before the extension, the timestamp being the
    current time as [YYYYMMDD_HHMMSS].  The loop returns within its 1000
    turns. *)
Theorem generateUniqueName_counter_then_timestamp (destPath : string) (w : os.World) :
  processor.generateUniqueName_run destPath w = Some (spec.unique_name destPath w)
  ∧ processor.generateUniqueName destPath w = spec.unique_name destPath w.
Proof.
  split; [apply generateUniqueName_returns |].
  unfold processor.generateUniqueName.
  now rewrite generateUniqueName_returns.
Qed.

(* ===================================================================== *)
(** ** The mover *)
(* ===================================================================== *)

Section Mover.

(** Logging does not change what the system calls see. *)
Lemma Stat_log l m w p : os.Stat (os.log l m w) p = os.Stat w p.
Proof. reflexivity. Qed.

Lemma refused_log l m w c : os.refused (os.log l m w) c = os.refused w c.
Proof. reflexivity. Qed.

Lemma refused_with_files w fs c :
  os.refused (os.with_files w fs) c = os.refused w c.
Proof. reflexivity. Qed.

Lemma Stat_inl w p info :
  os.Stat w p = inl info → ∃ n, os.files w !! p = Some n ∧ info = os.info_of n.
Proof.
  unfold os.Stat. destruct (os.refused w _); [discriminate |].
  destruct (os.files w !! p) as [n|]; [| discriminate].
  intros [= <-]. eauto.
Qed.

Lemma MkdirAll_existing d w :
  os.files w !! d = Some os.Directory → os.refused w (os.CMkdirAll d) = None →
  os.MkdirAll d w = (None, w).
Proof. intros Hd Hr. unfold os.MkdirAll. now rewrite Hr, Hd. Qed.

(** [MkdirAll] changes at most the name it is given, and only by making
    it a directory. *)
Lemma MkdirAll_frame d w r w' :
  os.MkdirAll d w = (r, w') →
  os.clock w' = os.clock w ∧ os.env w' = os.env w ∧ os.out w' = os.out w
  ∧ ∀ p, p ≠ d → os.files w' !! p = os.files w !! p.
Proof.
  unfold os.MkdirAll. destruct (os.refused w _).
  - intros [= <- <-]. auto.
  - destruct (os.files w !! d) as [[|]|]; intros [= <- <-]; auto.
    simpl. repeat split. intros p Hp. now rewrite lookup_insert_ne.
Qed.

Lemma Stat_frame w w' p :
  os.clock w' = os.clock w → os.env w' = os.env w →
  os.files w' !! p = os.files w !! p →
  os.Stat w' p = os.Stat w p.
Proof.
  intros Hc He Hf. unfold os.Stat, os.refused. now rewrite Hc, He, Hf.
Qed.

Lemma handleConflict_unknown dst strategy w :
  strategy ≠ "rename" → strategy ≠ "overwrite" →
  processor.handleConflict dst strategy w
  = (("", Some (processor.unknown_strategy strategy)), w).
Proof.
  intros Hr Ho. unfold processor.handleConflict.
  apply String.eqb_neq in Hr, Ho. now rewrite Ho, Hr.
Qed.

(** C4.  When the source is a regular file, a file already exists at
    [destDir/filename] (so that the destination directory exists and
    making it is granted), and the conflict strategy is neither
    ["rename"] nor ["overwrite"], [MoveFile] returns the unknown-strategy
    error and has changed no file: the source and the file at the
    destination are as they were.  The worker that ran the job logs the
    failure and is done with the job, the files being as they were. *)
Theorem MoveFile_unknown_strategy_fails_without_change
    (src destDir strategy : string) (w : os.World) (sinfo dinfo : os.FileInfo) :
  os.Stat w src = inl sinfo → os.IsDir sinfo = false →
  os.files w !! destDir = Some os.Directory →
  os.refused w (os.CMkdirAll destDir) = None →
  os.Stat w (filepath.Join destDir (filepath.Base src)) = inl dinfo →
  strategy ≠ "rename" → strategy ≠ "overwrite" →
  (∃ w', processor.MoveFile src destDir strategy w
         = (Some (processor.unknown_strategy strategy), w')
         ∧ os.files w' = os.files w
         ∧ os.files w' !! src = os.files w !! src
         ∧ os.files w' !! filepath.Join destDir (filepath.Base src)
           = os.files w !! filepath.Join destDir (filepath.Base src))
  ∧ (∀ job i rule,
       watcher.FilePath job = src →
       processor.MatchRule src (watcher.JobRules job) = Some (i, rule) →
       config.Destination rule = destDir →
       config.ConflictStrategy rule = strategy →
       os.files (watcher.worker_job job w) = os.files w
       ∧ last (os.out (watcher.worker_job job w))
         = Some (os.Log os.Err "Worker failed to move file")).
Proof.
  intros Hs Hd Hdir Hmk Hdst Hr Ho.
  assert (Hmove : ∀ w0, os.files w0 = os.files w → os.clock w0 = os.clock w →
            os.env w0 = os.env w →
            ∃ w', processor.MoveFile src destDir strategy w0
                  = (Some (processor.unknown_strategy strategy), w')
                  ∧ os.files w' = os.files w).
  { intros w0 Hf Hc He.
    unfold processor.MoveFile, processor.MoveFile_destination.
    rewrite (Stat_frame w w0) by (auto; now rewrite Hf).
    rewrite Hs, Hd.
    rewrite MkdirAll_existing; cycle 1.
    { simpl. now rewrite Hf. }
    { unfold os.refused. simpl. now rewrite Hc, He. }
    rewrite !Stat_log.
    rewrite (Stat_frame w w0) by (auto; now rewrite Hf).
    rewrite Hdst, handleConflict_unknown by assumption.
    eexists. split; [reflexivity | exact Hf]. }
  split.
  - destruct (Hmove w) as (w' & Hw' & Hf); auto.
    exists w'. split; [assumption |]. split; [assumption |]. now rewrite Hf.
  - intros job i rule Hpath Hmatch Hdest Hstrat.
    unfold watcher.worker_job. rewrite Hpath, Hmatch, Hdest, Hstrat.
    destruct (Hmove (os.log os.Info "Worker matched rule"
                       (os.log os.Debug "Worker processing file" w)))
      as (w' & Hw' & Hf); auto.
    rewrite Hw'. simpl. split; [assumption |]. apply last_snoc.
Qed.

(** A conflict with the strategy [skip]. *)
Lemma MoveFile_unknown_strategy_fails_without_change_witness :
  ∃ w', processor.MoveFile "/in/a.pdf" "/out" "skip"
          (examples.world examples.conflict_files (examples.refusing []))
        = (Some (processor.unknown_strategy "skip"), w')
        ∧ os.files w' !! "/in/a.pdf" = Some (os.File "new bytes" 420)
        ∧ os.files w' !! "/out/a.pdf" = Some (os.File "old bytes" 384).
Proof.
  destruct (MoveFile_unknown_strategy_fails_without_change
              "/in/a.pdf" "/out" "skip"
              (examples.world examples.conflict_files (examples.refusing []))
              (os.info_of (os.File "new bytes" 420))
              (os.info_of (os.File "old bytes" 384)))
    as [(w' & Hmove & _ & Hsrc & Hdst) _];
    try reflexivity; try discriminate.
  exists w'. split; [exact Hmove |]. split.
  - exact (eq_trans Hsrc eq_refl).
  - exact (eq_trans Hdst eq_refl).
Defined.

Ltac os_simpl :=
  cbn [os.files os.clock os.env os.out os.with_files os.log os.refused
       os.handle_path os.Close fst snd] in *.

Lemma MkdirAll_log d l m w :
  os.MkdirAll d (os.log l m w)
  = (fst (os.MkdirAll d w), os.log l m (snd (os.MkdirAll d w))).
Proof.
  unfold os.MkdirAll, os.refused. os_simpl.
  destruct (os.fault (os.env w) (os.clock w) _); [reflexivity |].
  destruct (os.files w !! d) as [[|]|]; reflexivity.
Qed.

(** Without a file at the destination, the first half of [MoveFile]
    does not look at the strategy. *)
Lemma MoveFile_destination_no_conflict src destDir strategy w err :
  os.Stat w (filepath.Join destDir (filepath.Base src)) = inr err →
  filepath.Join destDir (filepath.Base src) ≠ destDir →
  processor.MoveFile_destination src destDir strategy w
  = match os.Stat w src with
    | inr e =>
        if os.IsNotExist e
        then inl (None, os.log os.Warn "Source file no longer exists, skipping" w)
        else inl (Some (os.Wrapf "failed to stat source file" e), w)
    | inl sourceInfo =>
        if os.IsDir sourceInfo
        then inl (None, os.log os.Warn "Source is a directory, not a file, skipping" w)
        else
          match os.MkdirAll destDir
                  (os.log os.Debug "Ensuring destination directory exists"
                     (os.log os.Debug "Starting file move" w)) with
          | (Some e, w1) =>
              inl (Some (os.Wrapf "failed to create destination directory" e), w1)
          | (None, w1) =>
              inr (filepath.Join destDir (filepath.Base src),
                   os.log os.Debug "Destination directory ready" w1)
          end
    end.
Proof.
  intros Hdst Hne. unfold processor.MoveFile_destination.
  destruct (os.Stat w src) as [sinfo | e]; [| reflexivity].
  destruct (os.IsDir sinfo); [reflexivity |].
  destruct (os.MkdirAll destDir _) as [[e|] w1] eqn:Hmk; [reflexivity |].
  apply MkdirAll_frame in Hmk as (Hc & He & _ & Hf).
  rewrite Stat_log, (Stat_frame w w1), Hdst; auto.
Qed.

Lemma Rename_granted old new w n :
  os.refused w (os.CRename old new) = None → os.files w !! old = Some n →
  os.Rename old new w
  = (None, os.with_files w (<[new := n]> (delete old (os.files w)))).
Proof. intros Hr Hn. unfold os.Rename. now rewrite Hr, Hn. Qed.

Lemma Rename_refused old new w e :
  os.refused w (os.CRename old new) = Some e →
  os.Rename old new w = (Some (os.LinkError "rename" old new e), w).
Proof. intros Hr. unfold os.Rename. now rewrite Hr. Qed.

(** The errors of the second half of [MoveFile] are wrapped errors. *)
Lemma MoveFile_relocate_error src filename dst w e w' :
  processor.MoveFile_relocate src filename dst w = (Some e, w') →
  ∃ msg inner, e = os.Wrapf msg inner.
Proof.
  unfold processor.MoveFile_relocate.
  destruct (os.Rename src dst _) as [[e0|] w0]; [| discriminate].
  destruct (processor.cross_device e0).
  - destruct (processor.copyFile src dst _) as [[e1|] w1].
    + intros [= <- <-]. eauto.
    + discriminate.
  - intros [= <- <-]. eauto.
Qed.

(** C9.  When no file exists at [destDir/filename] (a name other than
    the directory's own), [MoveFile] does not consult the conflict
    strategy: its result is the same for every strategy value, ["skip"]
    included, and it is never the unknown-strategy error; and when the
    source is a regular file, the destination directory exists or can be
    made and the rename is granted, [MoveFile] returns success with the
    source's file at [destDir/filename] and no longer at the source
    path. *)
Theorem MoveFile_without_conflict_ignores_strategy
    (src destDir strategy : string) (w : os.World) (err : os.error) :
  os.Stat w (filepath.Join destDir (filepath.Base src)) = inr err →
  filepath.Join destDir (filepath.Base src) ≠ destDir →
  (∀ strategy', processor.MoveFile src destDir strategy' w
                = processor.MoveFile src destDir strategy w)
  ∧ (∀ anyStrategy e w',
       processor.MoveFile src destDir strategy w = (Some e, w') →
       e ≠ processor.unknown_strategy anyStrategy)
  ∧ (∀ sinfo,
       os.Stat w src = inl sinfo → os.IsDir sinfo = false →
       fst (os.MkdirAll destDir w) = None →
       os.refused w (os.CRename src (filepath.Join destDir (filepath.Base src))) = None →
       ∃ w', processor.MoveFile src destDir strategy w = (None, w')
             ∧ os.files w' !! filepath.Join destDir (filepath.Base src)
               = os.files w !! src
             ∧ os.files w' !! src = None).
Proof.
  intros Hdst Hne.
  set (dst := filepath.Join destDir (filepath.Base src)) in *.
  split; [| split].
  - intros strategy'. unfold processor.MoveFile.
    now rewrite !(MoveFile_destination_no_conflict _ _ _ _ err).
  - intros anyStrategy e w'. unfold processor.MoveFile.
    rewrite (MoveFile_destination_no_conflict _ _ _ _ err) by assumption.
    destruct (os.Stat w src) as [sinfo | e0].
    + destruct (os.IsDir sinfo); [discriminate |].
      destruct (os.MkdirAll destDir _) as [[e1|] w1].
      * intros [= <- <-]. discriminate.
      * intros H. apply MoveFile_relocate_error in H as (msg & inner & ->).
        discriminate.
    + destruct (os.IsNotExist e0); [discriminate |].
      intros [= <- <-]. discriminate.
  - intros sinfo Hs Hd Hmk Hren.
    destruct (Stat_inl _ _ _ Hs) as (n & Hn & Hinfo).
    assert (Hsd : src ≠ destDir).
    { intros Heq. rewrite <- Heq in Hmk. unfold os.MkdirAll in Hmk.
      destruct (os.refused w _); [discriminate |].
      rewrite Hn in Hmk. subst sinfo. destruct n; discriminate. }
    assert (Hsrc_dst : src ≠ dst).
    { intros Heq. rewrite <- Heq in Hdst. congruence. }
    unfold processor.MoveFile.
    rewrite (MoveFile_destination_no_conflict _ _ _ _ err) by assumption.
    rewrite Hs, Hd, !MkdirAll_log, Hmk.
    destruct (os.MkdirAll destDir w) as [r w1] eqn:Hmk1.
    apply MkdirAll_frame in Hmk1 as (Hc & He & _ & Hf).
    unfold processor.MoveFile_relocate. os_simpl.
    rewrite (Rename_granted _ _ _ n).
    + eexists. split; [reflexivity |]. os_simpl.
      rewrite lookup_insert_eq, lookup_insert_ne, lookup_delete_eq by auto.
      split; [symmetry; assumption | reflexivity].
    + unfold os.refused in *. os_simpl. now rewrite Hc, He.
    + os_simpl. now rewrite Hf.
Qed.

(** A move with the strategy [skip] into a directory without an
    [a.pdf]. *)
Lemma MoveFile_without_conflict_ignores_strategy_witness :
  processor.MoveFile "/in/a.pdf" "/out" "rename"
    (examples.world examples.free_files (examples.refusing []))
  = processor.MoveFile "/in/a.pdf" "/out" "skip"
      (examples.world examples.free_files (examples.refusing []))
  ∧ ∃ w', processor.MoveFile "/in/a.pdf" "/out" "skip"
            (examples.world examples.free_files (examples.refusing []))
          = (None, w')
          ∧ os.files w' !! "/out/a.pdf" = Some (os.File "new bytes" 420)
          ∧ os.files w' !! "/in/a.pdf" = None.
Proof.
  destruct (MoveFile_without_conflict_ignores_strategy
              "/in/a.pdf" "/out" "skip"
              (examples.world examples.free_files (examples.refusing []))
              (os.PathError "stat" "/out/a.pdf" os.ENOENT))
    as (Hany & _ & Hmoved); try reflexivity; try discriminate.
  split; [apply Hany |].
  destruct (Hmoved (os.info_of (os.File "new bytes" 420)))
    as (w' & Hmove & Hdst & Hsrc); try reflexivity.
  exists w'. split; [exact Hmove |]. split.
  - exact (eq_trans Hdst eq_refl).
  - exact Hsrc.
Defined.

(** *** The move across devices *)

Lemma Contains_append_r a b sub :
  gostrings.Contains b sub = true → gostrings.Contains (a +:+ b) sub = true.
Proof.
  intros H. induction a as [|c a IH]; [exact H |].
  simpl. rewrite IH. apply orb_true_r.
Qed.

(** The message of a rename the kernel refused with [EXDEV] passes the
    test of [MoveFile], whatever the two paths are. *)
Lemma cross_device_EXDEV old new :
  processor.cross_device (os.LinkError "rename" old new os.EXDEV) = true.
Proof.
  unfold processor.cross_device. apply orb_true_intro. left.
  cbn [os.Error os.strerror].
  do 5 apply Contains_append_r. reflexivity.
Qed.

Lemma handleConflict_frame dst strategy w r w' :
  processor.handleConflict dst strategy w = (r, w') →
  os.files w' = os.files w ∧ os.clock w' = os.clock w ∧ os.env w' = os.env w.
Proof.
  unfold processor.handleConflict.
  destruct (String.eqb strategy "overwrite"); [intros [= <- <-]; auto |].
  destruct (String.eqb strategy "rename"); intros [= <- <-]; auto.
Qed.

(** When the first half of [MoveFile] goes on to the move, the source
    is a regular file, which that half has not touched, and time has not
    passed. *)
Lemma MoveFile_destination_inr src destDir strategy w dst w1 :
  processor.MoveFile_destination src destDir strategy w = inr (dst, w1) →
  os.files w1 !! src = os.files w !! src
  ∧ os.clock w1 = os.clock w ∧ os.env w1 = os.env w
  ∧ ∃ content mode, os.files w !! src = Some (os.File content mode).
Proof.
  unfold processor.MoveFile_destination.
  destruct (os.Stat w src) as [sinfo | e] eqn:Hs;
    [| destruct (os.IsNotExist e); discriminate].
  apply Stat_inl in Hs as (n & Hn & ->).
  destruct n as [content mode |]; [| discriminate]. cbn [os.info_of os.IsDir].
  rewrite !MkdirAll_log.
  destruct (os.MkdirAll destDir w) as [[e|] w0] eqn:Hmk; [discriminate |].
  assert (Hsd : src ≠ destDir).
  { intros ->. unfold os.MkdirAll in Hmk.
    destruct (os.refused w _); [discriminate |].
    rewrite Hn in Hmk. discriminate. }
  apply MkdirAll_frame in Hmk as (Hc & He & _ & Hf). os_simpl.
  destruct (os.Stat _ _).
  - destruct (processor.handleConflict _ _ _) as [[d [e|]] w2] eqn:Hh;
      [discriminate |].
    apply handleConflict_frame in Hh as (Hf2 & Hc2 & He2). os_simpl.
    intros [= <- <-]. rewrite Hf2, Hc2, He2, Hf by assumption. eauto 6.
  - intros [= <- <-]. os_simpl. rewrite Hf by assumption. eauto 6.
Qed.

Section CopyFile.
Variables (src dst : string) (w : os.World) (content : string) (mode : N).
Hypothesis Hne : src ≠ dst.
Hypothesis Hsrc : os.files w !! src = Some (os.File content mode).
Hypothesis Hdst : os.files w !! dst ≠ Some os.Directory.
Hypothesis Hopen : os.refused w (os.COpen src) = None.
Hypothesis Hcreate : os.refused w (os.CCreate dst) = None.

(** The destination [copyFile] has created, before any byte is copied. *)
Lemma Create_granted :
  ∃ m, os.Create dst w
       = (inl {| os.handle_path := dst |},
          os.with_files w (<[dst := os.File "" m]> (os.files w))).
Proof.
  unfold os.Create. rewrite Hcreate.
  destruct (os.files w !! dst) as [[c0 m0|]|]; [eauto | contradiction | eauto].
Qed.

Lemma copyFile_copied :
  os.refused w (os.CCopy dst src) = None → os.refused w (os.CSync dst) = None →
  ∃ m, processor.copyFile src dst w
       = (None, os.with_files w (<[dst := os.File content m]> (os.files w))).
Proof.
  intros Hcopy Hsync. unfold processor.copyFile, os.Open.
  rewrite Hopen, Hsrc. destruct Create_granted as (m & ->).
  unfold os.Copy, os.Sync, os.Fstat, os.Chmod, os.refused in *. os_simpl.
  rewrite lookup_insert_ne, Hsrc, lookup_insert_eq, Hcopy by auto. os_simpl.
  rewrite Hsync, insert_insert_eq.
  destruct (os.fault _ _ (os.CFstat src)).
  - eauto.
  - rewrite lookup_insert_ne, Hsrc by auto. cbn [os.info_of os.Mode].
    destruct (os.fault _ _ (os.CChmod dst)); os_simpl; [eauto |].
    rewrite lookup_insert_eq. os_simpl. rewrite insert_insert_eq. eauto.
Qed.

Lemma copyFile_rolled_back e :
  os.refused w (os.CCopy dst src) = Some e →
  os.refused w (os.CRemove dst) = None →
  processor.copyFile src dst w
  = (Some (os.Wrapf "failed to copy file content" (os.PathError "write" dst e)),
     os.with_files w (delete dst (os.files w))).
Proof.
  intros Hcopy Hremove. unfold processor.copyFile, os.Open.
  rewrite Hopen, Hsrc. destruct Create_granted as (m & ->).
  unfold os.Copy, os.Remove, os.refused in *. os_simpl.
  rewrite lookup_insert_ne, Hsrc, lookup_insert_eq, Hcopy by auto. os_simpl.
  rewrite Hremove, lookup_insert_eq. os_simpl.
  now rewrite insert_insert_eq, delete_insert_eq.
Qed.

(** The removal of what a failed copy has written is refused too: the
    bytes written stay under the name of the destination. *)
Lemma copyFile_left_behind e e' :
  os.refused w (os.CCopy dst src) = Some e →
  os.refused w (os.CRemove dst) = Some e' →
  ∃ m, processor.copyFile src dst w
       = (Some (os.Wrapf "failed to copy file content" (os.PathError "write" dst e)),
          os.with_files w
            (<[dst := os.File (substring 0 (os.short_write (os.env w) (os.clock w))
                                 content) m]> (os.files w))).
Proof.
  intros Hcopy Hremove. unfold processor.copyFile, os.Open.
  rewrite Hopen, Hsrc. destruct Create_granted as (m & ->).
  unfold os.Copy, os.Remove, os.refused in *. os_simpl.
  rewrite lookup_insert_ne, Hsrc, lookup_insert_eq, Hcopy by auto. os_simpl.
  rewrite Hremove. os_simpl. rewrite insert_insert_eq. eauto.
Qed.

Lemma copyFile_not_synced e :
  os.refused w (os.CCopy dst src) = None →
  os.refused w (os.CSync dst) = Some e →
  ∃ m, processor.copyFile src dst w
       = (Some (os.Wrapf "failed to sync destination file" (os.PathError "sync" dst e)),
          os.with_files w (<[dst := os.File content m]> (os.files w))).
Proof.
  intros Hcopy Hsync. unfold processor.copyFile, os.Open.
  rewrite Hopen, Hsrc. destruct Create_granted as (m & ->).
  unfold os.Copy, os.Sync, os.refused in *. os_simpl.
  rewrite lookup_insert_ne, Hsrc, lookup_insert_eq, Hcopy by auto. os_simpl.
  rewrite Hsync, insert_insert_eq. eauto.
Qed.

End CopyFile.

(** C6.  Let [MoveFile] have reached the rename, towards [dst], and let
    the kernel refuse the rename with the cross-device error, the source
    being readable and the destination creatable.
    - When copy and sync are granted, [MoveFile] returns success and the
      destination holds all the bytes of the source; the source is gone
      when its removal is granted; when its removal is refused the source
      is still there, the result is success all the same, and what is
      logged from the rename on is two debug records, the warning and the
      record of success.
    - When the copy is refused part of the way, [MoveFile] returns the
      copy error and the source is as it was; [copyFile] then tries to
      remove the destination and does not look at the outcome: no file is
      left at the destination when the removal is granted, and the bytes
      written so far are left there when the removal is refused.
    - When the sync is refused, [MoveFile] returns the sync error and the
      source is as it was. *)
Theorem MoveFile_cross_device_copy_then_remove
    (src destDir strategy : string) (w : os.World)
    (dst : string) (w1 : os.World) (content : string) (mode : N) :
  processor.MoveFile_destination src destDir strategy w = inr (dst, w1) →
  os.files w !! src = Some (os.File content mode) →
  os.refused w (os.CRename src dst) = Some os.EXDEV →
  src ≠ dst →
  os.files w1 !! dst ≠ Some os.Directory →
  os.refused w (os.COpen src) = None →
  os.refused w (os.CCreate dst) = None →
  (os.refused w (os.CCopy dst src) = None →
   os.refused w (os.CSync dst) = None →
   ∃ w' m,
     processor.MoveFile src destDir strategy w = (None, w')
     ∧ os.files w' !! dst = Some (os.File content m)
     ∧ (os.refused w (os.CRemove src) = None → os.files w' !! src = None)
     ∧ (∀ e, os.refused w (os.CRemove src) = Some e →
             os.files w' !! src = Some (os.File content mode)
             ∧ os.out w'
               = (os.out w1
                  ++ [os.Log os.Debug "Attempting to move file";
                      os.Log os.Debug "Cross-device move detected, using copy+delete";
                      os.Log os.Warn "Failed to remove source file after copy";
                      os.Log os.Info "File moved successfully"])%list))
  ∧ (∀ e, os.refused w (os.CCopy dst src) = Some e →
          ∃ w',
            processor.MoveFile src destDir strategy w
            = (Some (os.Wrapf "failed to copy file"
                       (os.Wrapf "failed to copy file content"
                          (os.PathError "write" dst e))), w')
            ∧ os.files w' !! src = Some (os.File content mode)
            ∧ (os.refused w (os.CRemove dst) = None → os.files w' !! dst = None)
            ∧ (∀ e', os.refused w (os.CRemove dst) = Some e' →
                 ∃ m, os.files w' !! dst
                      = Some (os.File
                                (substring 0 (os.short_write (os.env w) (os.clock w))
                                   content) m)))
  ∧ (∀ e, os.refused w (os.CCopy dst src) = None →
          os.refused w (os.CSync dst) = Some e →
          ∃ w',
            processor.MoveFile src destDir strategy w
            = (Some (os.Wrapf "failed to copy file"
                       (os.Wrapf "failed to sync destination file"
                          (os.PathError "sync" dst e))), w')
            ∧ os.files w' !! src = Some (os.File content mode)).
Proof.
  intros Hdest Hsrc Hxdev Hne Hdst Hopen Hcreate.
  destruct (MoveFile_destination_inr _ _ _ _ _ _ Hdest) as (Hf & Hc & He & _).
  assert (Hr : ∀ c, os.refused w1 c = os.refused w c)
    by (intros c; unfold os.refused; now rewrite Hc, He).
  rewrite <- Hr in Hxdev, Hopen, Hcreate. rewrite <- Hf in Hsrc.
  unfold processor.MoveFile. rewrite Hdest.
  unfold processor.MoveFile_relocate.
  rewrite (Rename_refused _ _ _ os.EXDEV) by exact Hxdev.
  rewrite cross_device_EXDEV.
  set (w2 := os.log os.Debug "Cross-device move detected, using copy+delete"
               (os.log os.Debug "Attempting to move file" w1)).
  split; [| split].
  - intros Hcopy Hsync. rewrite <- Hr in Hcopy, Hsync.
    destruct (copyFile_copied src dst w2 content mode Hne Hsrc Hdst Hopen Hcreate
                Hcopy Hsync) as (m & ->).
    unfold os.Remove. subst w2. os_simpl.
    rewrite lookup_insert_ne, Hsrc by auto.
    rewrite refused_with_files, !refused_log, Hr.
    destruct (os.refused w (os.CRemove src)) as [e|] eqn:Hrm.
    + eexists _, m. split; [reflexivity |]. os_simpl.
      rewrite lookup_insert_eq, lookup_insert_ne, Hsrc by auto.
      split; [reflexivity |]. split; [discriminate |].
      intros e' _. split; [reflexivity |].
      rewrite <- !app_assoc. reflexivity.
    + eexists _, m. split; [reflexivity |]. os_simpl.
      rewrite lookup_delete_ne, lookup_insert_eq, lookup_delete_eq by auto.
      split; [reflexivity |]. split; [reflexivity |]. discriminate.
  - intros e Hcopy. rewrite <- Hr in Hcopy.
    destruct (os.refused w (os.CRemove dst)) as [e'|] eqn:Hremove;
      rewrite <- Hr in Hremove.
    + destruct (copyFile_left_behind src dst w2 content mode Hne Hsrc Hdst Hopen
                  Hcreate e e' Hcopy Hremove) as (m & ->).
      eexists. split; [reflexivity |]. subst w2. os_simpl.
      rewrite lookup_insert_ne, Hsrc, lookup_insert_eq, Hc, He by auto.
      split; [reflexivity |]. split; [discriminate | eauto].
    + rewrite (copyFile_rolled_back src dst w2 content mode Hne Hsrc Hdst Hopen
                 Hcreate e Hcopy Hremove).
      eexists. split; [reflexivity |]. subst w2. os_simpl.
      rewrite lookup_delete_eq, lookup_delete_ne, Hsrc by auto.
      split; [reflexivity |]. split; [reflexivity | discriminate].
  - intros e Hcopy Hsync. rewrite <- Hr in Hcopy, Hsync.
    destruct (copyFile_not_synced src dst w2 content mode Hne Hsrc Hdst Hopen
                Hcreate e Hcopy Hsync) as (m & ->).
    eexists. split; [reflexivity |]. subst w2. os_simpl.
    rewrite lookup_insert_ne, Hsrc by auto. reflexivity.
Qed.

(** C6 as it is worded has the destination removed whenever the copy
    fails part of the way.  A move from [/in] to [/out], where no [a.pdf]
    is yet, across devices, whose copy stops on a full disk after two
    bytes, and where what is in [/out] may not be removed: [MoveFile]
    returns the copy error, and [/out/a.pdf] is left holding the two
    bytes. *)
Lemma MoveFile_cross_device_failed_copy_left_behind :
  os.files (examples.world examples.free_files
              examples.across_devices_disk_full_locked) !! "/out/a.pdf" = None
  ∧ ∃ w', processor.MoveFile "/in/a.pdf" "/out" "rename"
            (examples.world examples.free_files
               examples.across_devices_disk_full_locked)
          = (Some (os.Wrapf "failed to copy file"
                     (os.Wrapf "failed to copy file content"
                        (os.PathError "write" "/out/a.pdf" os.ENOSPC))), w')
          ∧ os.files w' !! "/out/a.pdf" = Some (os.File "ne" 438)
          ∧ os.files w' !! "/out/a.pdf" ≠ None.
Proof.
  split; [reflexivity |].
  eexists. split; [reflexivity |]. split; [reflexivity | discriminate].
Qed.

(** Three moves from [/in] to [/out] across devices, with the strategy
    [overwrite] on a conflict: one whose source cannot be removed after
    the copy, one whose copy stops on a full disk, one whose copy stops
    on a full disk that does not let go of what was written. *)
Lemma MoveFile_cross_device_copy_then_remove_witness :
  (∃ w' m, processor.MoveFile "/in/a.pdf" "/out" "overwrite"
             (examples.world examples.conflict_files examples.across_devices_source_kept)
           = (None, w')
           ∧ os.files w' !! "/out/a.pdf" = Some (os.File "new bytes" m)
           ∧ os.files w' !! "/in/a.pdf" = Some (os.File "new bytes" 420))
  ∧ (∃ w', processor.MoveFile "/in/a.pdf" "/out" "overwrite"
             (examples.world examples.conflict_files examples.across_devices_disk_full)
           = (Some (os.Wrapf "failed to copy file"
                      (os.Wrapf "failed to copy file content"
                         (os.PathError "write" "/out/a.pdf" os.ENOSPC))), w')
           ∧ os.files w' !! "/out/a.pdf" = None
           ∧ os.files w' !! "/in/a.pdf" = Some (os.File "new bytes" 420))
  ∧ (∃ w' m, processor.MoveFile "/in/a.pdf" "/out" "overwrite"
               (examples.world examples.conflict_files
                  examples.across_devices_disk_full_locked)
             = (Some (os.Wrapf "failed to copy file"
                        (os.Wrapf "failed to copy file content"
                           (os.PathError "write" "/out/a.pdf" os.ENOSPC))), w')
             ∧ os.files w' !! "/out/a.pdf" = Some (os.File "ne" m)
             ∧ os.files w' !! "/in/a.pdf" = Some (os.File "new bytes" 420)).
Proof.
  split; [| split].
  - destruct (MoveFile_cross_device_copy_then_remove
                "/in/a.pdf" "/out" "overwrite"
                (examples.world examples.conflict_files
                   examples.across_devices_source_kept)
                "/out/a.pdf" _ "new bytes" 420 eq_refl)
      as [Hcopied _]; try reflexivity; try discriminate.
    destruct Hcopied as (w' & m & Hmove & Hdst & _ & Hkept); try reflexivity.
    destruct (Hkept os.EACCES eq_refl) as [Hsrc _].
    exists w', m. split; [exact Hmove |]. split; [exact Hdst | exact Hsrc].
  - destruct (MoveFile_cross_device_copy_then_remove
                "/in/a.pdf" "/out" "overwrite"
                (examples.world examples.conflict_files
                   examples.across_devices_disk_full)
                "/out/a.pdf" _ "new bytes" 420 eq_refl)
      as (_ & Hrolled & _); try reflexivity; try discriminate.
    destruct (Hrolled os.ENOSPC eq_refl) as (w' & Hmove & Hsrc & Hdst & _).
    exists w'. split; [exact Hmove |]. split; [exact (Hdst eq_refl) | exact Hsrc].
  - destruct (MoveFile_cross_device_copy_then_remove
                "/in/a.pdf" "/out" "overwrite"
                (examples.world examples.conflict_files
                   examples.across_devices_disk_full_locked)
                "/out/a.pdf" _ "new bytes" 420 eq_refl)
      as (_ & Hrolled & _); try reflexivity; try discriminate.
    destruct (Hrolled os.ENOSPC eq_refl) as (w' & Hmove & Hsrc & _ & Hleft).
    destruct (Hleft os.EACCES eq_refl) as (m & Hdst).
    exists w', m. split; [exact Hmove |]. split; [exact Hdst | exact Hsrc].
Defined.

End Mover.

(* ===================================================================== *)
(** ** The watcher *)
(* ===================================================================== *)

Section Watcher.
Import config.

(** One turn of the loop of [IsFileReady] on a file that is held:
    before the last attempt the watcher waits and tries again, after the
    last it leaves the loop. *)
Lemma IsFileReady_loop_retries todo i fw path w :
  spec.busy w path → (i <? watcher.maxRetries - 1)%Z = true →
  watcher.IsFileReady_loop (S todo) i fw path w
  = watcher.IsFileReady_loop todo (i + 1) fw path (spec.retry fw w).
Proof.
  intros (err & Hopen & Hn & Hp) Hi. cbn [watcher.IsFileReady_loop].
  now rewrite Hopen, Hn, Hp, Hi.
Qed.

Lemma IsFileReady_loop_gives_up i fw path w :
  spec.busy w path → (i <? watcher.maxRetries - 1)%Z = false →
  watcher.IsFileReady_loop 1 i fw path w = (false, w).
Proof.
  intros (err & Hopen & Hn & Hp) Hi. cbn [watcher.IsFileReady_loop].
  now rewrite Hopen, Hn, Hp, Hi.
Qed.

(** C8.  [IsFileReady] answers not-ready at once, having neither waited
    nor tried again, when the open fails because the file is missing or
    may not be read; when the open fails for another reason at each of
    its three attempts, it has waited the configured delay after the
    first and after the second attempt and answers not-ready; when a
    later attempt succeeds it answers ready; and it answers ready for a
    file that can be opened and whose size is zero. *)
Theorem IsFileReady_outcomes (fw : watcher.FileWatcher) (path : string) (w : os.World) :
  (∀ err, os.Open w path = inr err →
          os.IsNotExist err || os.IsPermission err = true →
          watcher.IsFileReady fw path w
          = (false, os.log os.Debug "File not accessible" w))
  ∧ (spec.busy w path → spec.busy (spec.retry fw w) path →
     spec.busy (spec.retry fw (spec.retry fw w)) path →
     watcher.IsFileReady fw path w = (false, spec.retry fw (spec.retry fw w))
     ∧ os.out (spec.retry fw (spec.retry fw w))
       = (os.out w ++ [os.Log os.Debug "File busy, retrying...";
                       os.Slept (watcher.delay fw);
                       os.Log os.Debug "File busy, retrying...";
                       os.Slept (watcher.delay fw)])%list)
  ∧ (spec.busy w path →
     ∀ file info, os.Open (spec.retry fw w) path = inl file →
                  os.Stat (spec.retry fw w) path = inl info →
                  os.Size info ≠ 0%Z →
                  watcher.IsFileReady fw path w = (true, spec.retry fw w))
  ∧ (∀ file info, os.Open w path = inl file → os.Stat w path = inl info →
                  os.Size info = 0%Z →
                  watcher.IsFileReady fw path w
                  = (true, os.log os.Debug "File has zero size" w)).
Proof.
  unfold watcher.IsFileReady.
  change (Z.to_nat watcher.maxRetries) with 3%nat.
  split; [| split; [| split]].
  - intros err Hopen Herr. cbn [watcher.IsFileReady_loop].
    now rewrite Hopen, Herr.
  - intros H0 H1 H2. split.
    + rewrite IsFileReady_loop_retries by (assumption || reflexivity).
      rewrite IsFileReady_loop_retries by (assumption || reflexivity).
      rewrite IsFileReady_loop_gives_up by (assumption || reflexivity).
      reflexivity.
    + unfold spec.retry, os.Sleep, os.log. cbn [os.out].
      now rewrite <- !app_assoc.
  - intros H0 file info Hopen Hstat Hsize.
    rewrite IsFileReady_loop_retries by (assumption || reflexivity).
    cbn [watcher.IsFileReady_loop].
    rewrite Hopen. unfold os.Close. rewrite Hstat.
    apply Z.eqb_neq in Hsize. now rewrite Hsize.
  - intros file info Hopen Hstat Hsize. cbn [watcher.IsFileReady_loop].
    rewrite Hopen. unfold os.Close. rewrite Hstat, Hsize. reflexivity.
Qed.

(** A file that may not be read, a file its writer holds through the
    three attempts, and an empty file. *)
Lemma IsFileReady_outcomes_witness :
  fst (watcher.IsFileReady (examples.inbox_watcher false) "/in/a.pdf"
         (examples.world examples.inbox_files examples.unreadable)) = false
  ∧ fst (watcher.IsFileReady (examples.inbox_watcher false) "/in/a.pdf"
           (examples.world examples.inbox_files examples.held_by_writer)) = false
  ∧ fst (watcher.IsFileReady (examples.inbox_watcher false) "/in/empty.txt"
           (examples.world examples.inbox_files (examples.refusing []))) = true.
Proof.
  split; [| split].
  - destruct (IsFileReady_outcomes (examples.inbox_watcher false) "/in/a.pdf"
                (examples.world examples.inbox_files examples.unreadable))
      as (Hdenied & _).
    rewrite (Hdenied (os.PathError "open" "/in/a.pdf" os.EACCES) eq_refl eq_refl).
    reflexivity.
  - destruct (IsFileReady_outcomes (examples.inbox_watcher false) "/in/a.pdf"
                (examples.world examples.inbox_files examples.held_by_writer))
      as (_ & Hheld & _).
    destruct Hheld as [-> _];
      try (exists (os.PathError "open" "/in/a.pdf" os.EBUSY); repeat split).
    reflexivity.
  - destruct (IsFileReady_outcomes (examples.inbox_watcher false) "/in/empty.txt"
                (examples.world examples.inbox_files (examples.refusing [])))
      as (_ & _ & _ & Hempty).
    rewrite (Hempty {| os.handle_path := "/in/empty.txt" |}
               (os.info_of (os.File "" 420)) eq_refl eq_refl eq_refl).
    reflexivity.
Defined.

(** *** Subscriptions *)

Lemma addPath_visit_watcher path walkPath info fw w fw' w' :
  watcher.addPath_visit path walkPath info (fw, w) = (fw', w') →
  ∀ p, p ∈ watcher.watcher fw' →
       p ∈ watcher.watcher fw
       ∨ (gostrings.HasPrefix (filepath.Base p) "." = false ∧ p ≠ path).
Proof.
  unfold watcher.addPath_visit. destruct info as [info | err].
  - destruct (os.IsDir info); cbn [andb];
      [| intros [= <- <-]; auto].
    destruct (gostrings.HasPrefix (filepath.Base walkPath) ".") eqn:Hhidden;
      cbn [negb]; [intros [= <- <-]; auto |].
    destruct (String.eqb_spec walkPath path) as [Heq | Hneq]; cbn [negb];
      [intros [= <- <-]; auto |].
    unfold watcher.watcher_Add. destruct (os.refused w _);
      [intros [= <- <-]; auto |].
    destruct (os.files w !! walkPath); intros [= <- <-]; auto.
    cbn [watcher.watcher]. intros p Hp.
    apply elem_of_union in Hp as [Hp | Hp]; [| auto].
    apply elem_of_singleton in Hp as ->. auto.
  - intros [= <- <-]. auto.
Qed.

Lemma addPath_walk_watcher path visits : ∀ st,
  ∀ p, p ∈ watcher.watcher
             (fst (List.fold_left
                     (fun st v => watcher.addPath_visit path (fst v) (snd v) st)
                     visits st)) →
       p ∈ watcher.watcher (fst st)
       ∨ (gostrings.HasPrefix (filepath.Base p) "." = false ∧ p ≠ path).
Proof.
  induction visits as [|v visits IH]; intros st p Hp; [auto |].
  cbn [List.fold_left] in Hp. apply IH in Hp as [Hp | Hp]; [| auto].
  destruct st as [fw w].
  destruct (watcher.addPath_visit path (fst v) (snd v) (fw, w)) as [fw' w'] eqn:Hv.
  eapply addPath_visit_watcher; eauto.
Qed.

(** C10.  Under a recursive monitor, a creation event (one that is not
    also a permission change) for a path that is a directory subscribes
    the watcher to that directory when the subscription is granted,
    whatever the directory is called, a name that begins with a dot
    included; the hidden-name filter is applied to files only, a hidden
    file being dropped; whereas the walk [addPath] makes at startup
    subscribes to no directory whose base name begins with a dot (what
    it leaves subscribed beyond what was subscribed before is the path it
    was given and directories that are not hidden). *)
Theorem handleEvent_subscribes_hidden_directory
    (event : watcher.Event) (fw : watcher.FileWatcher) (w : os.World)
    (info : os.FileInfo) :
  watcher.has (watcher.Op event) watcher.Chmod = false →
  watcher.has (watcher.Op event) watcher.Create = true →
  os.Stat w (watcher.EventName event) = inl info →
  (Recursive (watcher.fw_config fw) = true →
   os.IsDir info = true →
   os.refused w (os.CWatch (watcher.EventName event)) = None →
   watcher.handleEvent event fw w
   = (spec.subscribed (watcher.EventName event) fw,
      os.log os.Debug "Now watching new subdirectory" w)
   ∧ watcher.EventName event
     ∈ watcher.watcher (fst (watcher.handleEvent event fw w)))
  ∧ (os.IsDir info = false →
     gostrings.HasPrefix (filepath.Base (watcher.EventName event)) "." = true →
     watcher.handleEvent event fw w
     = (fw, os.log os.Debug "Ignoring hidden file" w))
  ∧ (∀ path fw0 w0 p,
       p ∈ watcher.watcher (fst (snd (watcher.addPath path true fw0 w0))) →
       gostrings.HasPrefix (filepath.Base p) "." = true →
       p ∈ watcher.watcher fw0 ∨ p = path).
Proof.
  intros Hchmod Hcreate Hstat. split; [| split].
  - intros Hrec Hdir Hgranted.
    assert (Hev : watcher.handleEvent event fw w
                  = (spec.subscribed (watcher.EventName event) fw,
                     os.log os.Debug "Now watching new subdirectory" w)).
    { unfold watcher.handleEvent.
      rewrite Hchmod, Hcreate. cbn [negb andb].
      rewrite Hstat, Hdir, Hrec. cbn [andb].
      unfold watcher.watcher_Add. rewrite Hgranted.
      apply Stat_inl in Hstat as (n & -> & _). reflexivity. }
    split; [exact Hev |]. rewrite Hev. cbn [fst spec.subscribed watcher.watcher].
    apply elem_of_union_l, elem_of_singleton. reflexivity.
  - intros Hfile Hhidden. unfold watcher.handleEvent.
    rewrite Hchmod, Hcreate. cbn [negb andb].
    now rewrite Hstat, Hfile, Hhidden.
  - intros path fw0 w0 p Hp Hhidden. unfold watcher.addPath in Hp.
    unfold watcher.watcher_Add in Hp.
    destruct (os.refused w0 _); [auto |].
    destruct (os.files w0 !! path); [| auto].
    cbn [snd] in Hp.
    apply addPath_walk_watcher in Hp as [Hp | [Hp _]]; [| congruence].
    cbn [fst watcher.watcher] in Hp.
    apply elem_of_union in Hp as [Hp | Hp]; [| auto].
    apply elem_of_singleton in Hp. auto.
Qed.

(** The directory [/in/.cache]: created while the watcher runs, it is
    subscribed to; present at startup, it is not. *)
Lemma handleEvent_subscribes_hidden_directory_witness :
  "/in/.cache"
  ∈ watcher.watcher
      (fst (watcher.handleEvent
              {| watcher.EventName := "/in/.cache"; watcher.Op := watcher.Create |}
              (examples.inbox_watcher true)
              (examples.world examples.inbox_files (examples.refusing []))))
  ∧ "/in/.cache"
    ∉ watcher.watcher
        (fst (snd (watcher.addPath "/in" true
                     {| watcher.fw_config := examples.inbox true;
                        watcher.watcher := ∅; watcher.delay := 0 |}
                     (examples.world examples.inbox_files (examples.refusing []))))).
Proof.
  destruct (handleEvent_subscribes_hidden_directory
              {| watcher.EventName := "/in/.cache"; watcher.Op := watcher.Create |}
              (examples.inbox_watcher true)
              (examples.world examples.inbox_files (examples.refusing []))
              (os.info_of os.Directory) eq_refl eq_refl eq_refl)
    as (Hcreated & _ & Hwalk).
  split.
  - apply Hcreated; reflexivity.
  - intros Hin. destruct (Hwalk _ _ _ _ Hin eq_refl) as [Hold | Hroot].
    + cbn [watcher.watcher] in Hold. exact (not_elem_of_empty _ Hold).
    + discriminate Hroot.
Defined.

(** *** From the event to the job *)

Lemma IsFileReady_loop_files todo : ∀ i fw path w,
  os.files (snd (watcher.IsFileReady_loop todo i fw path w)) = os.files w.
Proof.
  induction todo as [|todo IH]; intros i fw path w; [reflexivity |].
  cbn [watcher.IsFileReady_loop].
  destruct (os.Open w path) as [file | err].
  - unfold os.Close. destruct (os.Stat w path) as [info | err]; [| reflexivity].
    destruct (os.Size info =? 0)%Z; reflexivity.
  - destruct (os.IsNotExist err || os.IsPermission err); [reflexivity |].
    rewrite IH. destruct (i <? watcher.maxRetries - 1)%Z; reflexivity.
Qed.

(** No event makes [handleEvent] move, copy or remove a file: all it
    does with a file that is ready is to log that it is. *)
Lemma handleEvent_changes_no_file event fw w :
  os.files (snd (watcher.handleEvent event fw w)) = os.files w.
Proof.
  unfold watcher.handleEvent.
  destruct (watcher.has _ watcher.Chmod); [reflexivity |].
  destruct (negb _ && negb _); [reflexivity |].
  destruct (os.Stat w _) as [info | err];
    [| destruct (negb (os.IsNotExist err)); reflexivity].
  destruct (os.IsDir info).
  - destruct (Recursive _ && _); [| reflexivity].
    destruct (watcher.watcher_Add _ fw w) as [[e|] fw']; reflexivity.
  - destruct (gostrings.HasPrefix _ "."); [reflexivity |].
    destruct (watcher.isTempFile _); [reflexivity |].
    unfold watcher.IsFileReady.
    pose proof (IsFileReady_loop_files (Z.to_nat watcher.maxRetries) 0 fw
                  (watcher.EventName event)
                  (os.log os.Debug "File event detected" w)) as Hfiles.
    destruct (watcher.IsFileReady_loop _ _ _ _ _) as [[|] w']; exact Hfiles.
Qed.

(** C1.  The creation of [/in/a.pdf], a regular file that is not hidden,
    not temporary and ready, under a monitor one of whose rules sends
    [.pdf] files to [/out]: [handleEvent] logs that the file is ready for
    processing and returns.  No job is built and none is handed to a
    worker pool; the file stays where it is.  The job the event should
    have become, given to a worker, moves the file to [/out]. *)
Theorem handleEvent_ready_file_is_only_logged :
  watcher.IsFileReady (examples.inbox_watcher false) "/in/a.pdf"
    (examples.world examples.inbox_files (examples.refusing []))
  = (true, examples.world examples.inbox_files (examples.refusing []))
  ∧ watcher.handleEvent examples.a_pdf_created (examples.inbox_watcher false)
      (examples.world examples.inbox_files (examples.refusing []))
    = (examples.inbox_watcher false,
       os.log os.Info "File ready for processing"
         (os.log os.Debug "File event detected"
            (examples.world examples.inbox_files (examples.refusing []))))
  ∧ os.files
      (watcher.worker_job examples.a_pdf_job
         (examples.world examples.inbox_files (examples.refusing [])))
    !! "/out/a.pdf"
    = Some (os.File "new bytes" 420).
Proof. repeat split. Qed.

End Watcher.

(* ===================================================================== *)
(** ** The validation of the configuration *)
(* ===================================================================== *)

Section Validation.
Import config.

Variable ParseDuration : string -> Z + os.error.

Lemma Validate_rules_accepts monitor rules : ∀ j w w',
  config.Validate_rules monitor j rules w = (None, w') →
  ∀ r, r ∈ rules → spec.has_criterion r.
Proof.
  induction rules as [|rule rules IH]; intros j w w' Hv r Hr;
    [inversion Hr |].
  cbn [config.Validate_rules] in Hv.
  destruct (String.eqb (Name rule) ""); [discriminate |].
  destruct (_ && _ && _) eqn:Hnone; [discriminate |].
  destruct (String.eqb (Destination rule) ""); [discriminate |].
  destruct (negb _); [discriminate |].
  destruct (os.MkdirAll _ w) as [[e|] w1]; [discriminate |].
  apply elem_of_cons in Hr as [-> | Hr]; [| eauto].
  unfold spec.has_criterion.
  destruct (Extensions rule), (NameContains rule), (NameStartsWith rule);
    try discriminate; auto.
Qed.

Lemma Validate_monitors_accepts monitors : ∀ i w w',
  config.Validate_monitors i monitors w = (None, w') →
  ∀ m r, m ∈ monitors → r ∈ Rules m → spec.has_criterion r.
Proof.
  induction monitors as [|monitor monitors IH]; intros i w w' Hv m r Hm Hr;
    [inversion Hm |].
  cbn [config.Validate_monitors] in Hv.
  destruct (String.eqb (MonitorName monitor) ""); [discriminate |].
  destruct (match os.Stat w _ with inl _ => false | inr e => os.IsNotExist e end);
    [discriminate |].
  destruct (List.length (Rules monitor) =? 0)%nat; [discriminate |].
  destruct (config.Validate_rules monitor 0 (Rules monitor) w) as [[e|] w1] eqn:Hrules;
    [discriminate |].
  apply elem_of_cons in Hm as [-> | Hm]; [| eauto].
  eapply Validate_rules_accepts; eauto.
Qed.

(** The half of C5 that holds: a configuration [Validate] accepts has no
    rule whose extension, contains and starts-with lists are all empty;
    the more so none whose four lists are. *)
Lemma Validate_accepts_no_rule_without_predicate c w w' :
  config.Validate ParseDuration c w = (None, w') →
  ∀ m r, m ∈ Monitors c → r ∈ Rules m →
         ¬ (Extensions r = [] ∧ NameContains r = []
            ∧ NameContainsAll r = [] ∧ NameStartsWith r = []).
Proof.
  unfold config.Validate. intros Hv m r Hm Hr (He & Hc & _ & Hs).
  destruct (negb _); [discriminate |].
  destruct (config.ParseDelayDuration _ _); [| discriminate].
  destruct (MaxWorkers _ <=? 0)%Z; [discriminate |].
  destruct (List.length (Monitors c) =? 0)%nat; [discriminate |].
  destruct (Validate_monitors_accepts _ _ _ _ Hv m r Hm Hr) as [H | [H | H]];
    contradiction.
Qed.

End Validation.

(** C5.  A rule whose only criterion is its contains-all list, in a
    configuration that is in order otherwise: [Validate] rejects it for
    having no matching criterion, although one of the four lists is not
    empty and the matcher matches files by it. *)
Theorem Validate_rejects_rule_with_only_contains_all :
  config.NameContainsAll examples.only_contains_all ≠ []
  ∧ config.Validate examples.two_seconds (examples.config_of examples.bananas)
      (examples.world examples.inbox_files (examples.refusing []))
    = (Some (os.Errorf
         "monitor 'inbox', rule 'r': must define at least one matching criterion (extensions, name_contains, or name_starts_with)"),
       examples.world examples.inbox_files (examples.refusing []))
  ∧ processor.MatchRule "/in/banana.txt" [examples.only_contains_all]
    = Some (0%nat, examples.only_contains_all).
Proof. repeat split. discriminate. Qed.

(* ===================================================================== *)
(** ** More on the mover: what a move keeps, and what it delivers *)
(* ===================================================================== *)

Ltac world_simpl :=
  cbn [os.files os.clock os.env os.out os.with_files os.log os.refused
       os.handle_path os.Close fst snd] in *.

(** A refused call leaves the world as it was. *)
Lemma MkdirAll_error d w e w' : os.MkdirAll d w = (Some e, w') → w' = w.
Proof.
  unfold os.MkdirAll. destruct (os.refused w _); [now intros [= _ <-] |].
  destruct (os.files w !! d) as [[|]|]; now intros [= <-].
Qed.

Lemma Rename_error old new w e w' : os.Rename old new w = (Some e, w') → w' = w.
Proof.
  unfold os.Rename. destruct (os.refused w _); [now intros [= _ <-] |].
  destruct (os.files w !! old); now intros [= <-].
Qed.

Lemma touches_only_refl path w : spec.touches_only path w w.
Proof. unfold spec.touches_only. auto. Qed.

Lemma touches_only_trans path w1 w2 w3 :
  spec.touches_only path w1 w2 → spec.touches_only path w2 w3 →
  spec.touches_only path w1 w3.
Proof.
  intros (Hc & He & Ho & Hf) (Hc' & He' & Ho' & Hf').
  unfold spec.touches_only. rewrite Hc', He', Ho'. repeat split; auto.
  intros p Hp. rewrite Hf', Hf; auto.
Qed.

Lemma touches_only_insert path w n :
  spec.touches_only path w (os.with_files w (<[path := n]> (os.files w))).
Proof.
  unfold spec.touches_only. world_simpl. repeat split.
  intros p Hp. now rewrite lookup_insert_ne.
Qed.

Lemma touches_only_delete path w :
  spec.touches_only path w (os.with_files w (delete path (os.files w))).
Proof.
  unfold spec.touches_only. world_simpl. repeat split.
  intros p Hp. now rewrite lookup_delete_ne.
Qed.

Lemma Create_touches path w r w' :
  os.Create path w = (r, w') →
  spec.touches_only path w w'
  ∧ ∀ h, r = inl h → os.handle_path h = path ∧ ∃ m, os.files w' !! path = Some (os.File "" m).
Proof.
  unfold os.Create. destruct (os.refused w _).
  - intros [= <- <-]. split; [apply touches_only_refl | discriminate].
  - destruct (os.files w !! path) as [[c m|]|]; intros [= <- <-].
    + split; [apply touches_only_insert |]. intros h [= <-]. world_simpl.
      rewrite lookup_insert_eq. eauto.
    + split; [apply touches_only_refl | discriminate].
    + split; [apply touches_only_insert |]. intros h [= <-]. world_simpl.
      rewrite lookup_insert_eq. eauto.
Qed.

Lemma Copy_touches dst src w r w' :
  os.Copy dst src w = (r, w') → spec.touches_only (os.handle_path dst) w w'.
Proof.
  unfold os.Copy.
  destruct (os.files w !! os.handle_path src) as [[c m|]|];
    [| intros [= <- <-]; apply touches_only_refl ..].
  destruct (os.files w !! os.handle_path dst) as [[c' m'|]|];
    [| intros [= <- <-]; apply touches_only_refl ..].
  destruct (os.refused w _); intros [= <- <-]; apply touches_only_insert.
Qed.

Lemma Remove_touches path w r w' :
  os.Remove path w = (r, w') → spec.touches_only path w w'.
Proof.
  unfold os.Remove. destruct (os.refused w _);
    [intros [= <- <-]; apply touches_only_refl |].
  destruct (os.files w !! path); intros [= <- <-];
    [apply touches_only_delete | apply touches_only_refl].
Qed.

Lemma Chmod_touches path mode w r w' :
  os.Chmod path mode w = (r, w') → spec.touches_only path w w'.
Proof.
  unfold os.Chmod. destruct (os.refused w _);
    [intros [= <- <-]; apply touches_only_refl |].
  destruct (os.files w !! path) as [[c m|]|]; intros [= <- <-];
    [apply touches_only_insert | apply touches_only_refl ..].
Qed.

Lemma Open_path w path h : os.Open w path = inl h → os.handle_path h = path.
Proof.
  unfold os.Open. destruct (os.refused w _); [discriminate |].
  destruct (os.files w !! path); [| discriminate]. now intros [= <-].
Qed.

(** Whatever becomes of the copy, [copyFile] writes to the destination
    only, emits nothing and takes no time. *)
Lemma copyFile_touches src dst w r w' :
  processor.copyFile src dst w = (r, w') → spec.touches_only dst w w'.
Proof.
  unfold processor.copyFile.
  destruct (os.Open w src) as [sourceFile | e];
    [| intros [= <- <-]; apply touches_only_refl].
  destruct (os.Create dst w) as [[destFile | e] w0] eqn:Hcreate;
    apply Create_touches in Hcreate as [H0 Hh];
    [| intros [= <- <-]; exact H0].
  destruct (Hh destFile eq_refl) as [Hpath _].
  destruct (os.Copy destFile sourceFile w0) as [[e|] w1] eqn:Hcopy;
    apply Copy_touches in Hcopy as H1; rewrite Hpath in H1.
  - unfold os.Close.
    destruct (os.Remove dst w1) as [r2 w2] eqn:Hrm. apply Remove_touches in Hrm.
    intros [= <- <-]. eauto using touches_only_trans.
  - destruct (os.Sync destFile w1); [intros [= <- <-]; eauto using touches_only_trans |].
    destruct (os.Fstat w1 sourceFile) as [info | e].
    + destruct (os.Chmod dst (os.Mode info) w1) as [r2 w2] eqn:Hch.
      apply Chmod_touches in Hch. intros [= <- <-].
      eauto using touches_only_trans.
    + intros [= <- <-]. eauto using touches_only_trans.
Qed.

(** A copy that reports success has put all the bytes of the source at
    the destination. *)
Lemma copyFile_success src dst w w' content mode :
  src ≠ dst → os.files w !! src = Some (os.File content mode) →
  processor.copyFile src dst w = (None, w') →
  ∃ m, os.files w' !! dst = Some (os.File content m).
Proof.
  intros Hne Hsrc. unfold processor.copyFile.
  destruct (os.Open w src) as [sourceFile | e] eqn:Hopen; [| discriminate].
  apply Open_path in Hopen.
  destruct (os.Create dst w) as [[destFile | e] w0] eqn:Hcreate; [| discriminate].
  apply Create_touches in Hcreate as [(_ & _ & _ & Hf0) Hh].
  destruct (Hh destFile eq_refl) as [Hpath (m0 & Hdst0)].
  unfold os.Copy. rewrite Hopen, Hpath, Hf0, Hsrc, Hdst0 by auto.
  destruct (os.refused w0 _).
  { destruct (os.Remove _ _). discriminate. }
  destruct (os.Sync destFile _); [discriminate |].
  unfold os.Fstat, os.Chmod. rewrite !refused_with_files. world_simpl.
  rewrite Hopen.
  destruct (os.refused w0 (os.CFstat src)).
  - intros [= <-]. unfold os.Close. world_simpl. rewrite lookup_insert_eq. eauto.
  - rewrite lookup_insert_ne, Hf0, Hsrc by auto. cbn [os.info_of os.Mode].
    destruct (os.refused w0 (os.CChmod dst)); world_simpl.
    + intros [= <-]. unfold os.Close. world_simpl. rewrite lookup_insert_eq. eauto.
    + rewrite lookup_insert_eq. world_simpl.
      intros [= <-]. unfold os.Close. world_simpl. rewrite lookup_insert_eq. eauto.
Qed.

(** What the first half of [MoveFile] returns with, it returns with the
    source as it was. *)
Lemma MoveFile_destination_inl src destDir strategy w r w' :
  processor.MoveFile_destination src destDir strategy w = inl (r, w') →
  os.files w' !! src = os.files w !! src.
Proof.
  unfold processor.MoveFile_destination.
  destruct (os.Stat w src) as [sinfo | e] eqn:Hs.
  - apply Stat_inl in Hs as (n & Hn & ->).
    destruct n as [content mode |]; cbn [os.info_of os.IsDir];
      [| now intros [= <- <-]].
    rewrite !MkdirAll_log.
    destruct (os.MkdirAll destDir w) as [[e|] w0] eqn:Hmk.
    + apply MkdirAll_error in Hmk as ->. now intros [= <- <-].
    + assert (Hsd : src ≠ destDir).
      { intros ->. unfold os.MkdirAll in Hmk.
        destruct (os.refused w _); [discriminate |].
        rewrite Hn in Hmk. discriminate. }
      apply MkdirAll_frame in Hmk as (_ & _ & _ & Hf). world_simpl.
      destruct (os.Stat _ _); [| discriminate].
      destruct (processor.handleConflict _ _ _) as [[d [e|]] w2] eqn:Hh;
        [| discriminate].
      apply handleConflict_frame in Hh as (Hf2 & _). world_simpl.
      intros [= <- <-]. now rewrite Hf2, Hf.
  - destruct (os.IsNotExist e); now intros [= <- <-].
Qed.

(** X1.  A move that fails has not cost the source: when [MoveFile]
    returns an error, what the source path names is what it named
    before, provided the move was not directed at the source path
    itself. *)
Theorem MoveFile_error_keeps_source
    (src destDir strategy : string) (w : os.World) (e : os.error) (w' : os.World) :
  processor.MoveFile src destDir strategy w = (Some e, w') →
  (∀ dst w1, processor.MoveFile_destination src destDir strategy w = inr (dst, w1)
             → dst ≠ src) →
  os.files w' !! src = os.files w !! src.
Proof.
  unfold processor.MoveFile.
  destruct (processor.MoveFile_destination src destDir strategy w)
    as [[r wd] | [dst w1]] eqn:Hd.
  - intros [= -> ->] _. eapply MoveFile_destination_inl; eauto.
  - intros Hmove Hne. specialize (Hne dst w1 eq_refl).
    apply MoveFile_destination_inr in Hd as (Hf & _).
    revert Hmove. unfold processor.MoveFile_relocate.
    destruct (os.Rename src dst _) as [[err|] w2] eqn:Hren; [| discriminate].
    apply Rename_error in Hren as ->.
    destruct (processor.cross_device err); [| now intros [= <- <-]].
    destruct (processor.copyFile src dst _) as [[err'|] w3] eqn:Hcopy;
      [| discriminate].
    apply copyFile_touches in Hcopy as (_ & _ & _ & Hf3).
    intros [= <- <-]. rewrite Hf3 by auto. exact Hf.
Qed.

(** A copy across devices that stops on a refused sync. *)
Lemma MoveFile_error_keeps_source_witness :
  ∃ e w', processor.MoveFile "/in/a.pdf" "/out" "overwrite"
            (examples.world examples.conflict_files examples.across_devices_no_sync)
          = (Some e, w')
          ∧ os.files w' !! "/in/a.pdf" = Some (os.File "new bytes" 420).
Proof.
  eexists _, _. split; [reflexivity |].
  rewrite (MoveFile_error_keeps_source "/in/a.pdf" "/out" "overwrite"
             (examples.world examples.conflict_files examples.across_devices_no_sync)
             _ _ eq_refl).
  - reflexivity.
  - intros dst w1 [= <- _]. discriminate.
Defined.

(** X2.  A move that succeeds has delivered the bytes: when [MoveFile]
    has gone on to the move of a regular file, towards a path other than
    the source, and returns success, the destination holds the content
    the source had, whether it got there by the rename or by the copy. *)
Theorem MoveFile_success_delivers_content
    (src destDir strategy : string) (w : os.World) (dst : string) (w1 w' : os.World)
    (content : string) (mode : N) :
  processor.MoveFile_destination src destDir strategy w = inr (dst, w1) →
  dst ≠ src →
  os.files w !! src = Some (os.File content mode) →
  processor.MoveFile src destDir strategy w = (None, w') →
  ∃ m, os.files w' !! dst = Some (os.File content m).
Proof.
  intros Hd Hne Hsrc. unfold processor.MoveFile. rewrite Hd.
  apply MoveFile_destination_inr in Hd as (Hf & _). rewrite <- Hf in Hsrc.
  unfold processor.MoveFile_relocate.
  destruct (os.Rename src dst _) as [[err|] w2] eqn:Hren.
  - apply Rename_error in Hren as ->.
    destruct (processor.cross_device err); [| discriminate].
    destruct (processor.copyFile src dst _) as [[err'|] w3] eqn:Hcopy;
      [discriminate |].
    apply copyFile_success with (content := content) (mode := mode) in Hcopy
      as (m & Hdst); [| auto | exact Hsrc].
    destruct (os.Remove src w3) as [r4 w4] eqn:Hrm.
    apply Remove_touches in Hrm as (_ & _ & _ & Hf4).
    intros [= <-]. exists m.
    destruct r4; world_simpl; rewrite Hf4 by auto; exact Hdst.
  - unfold os.Rename in Hren. destruct (os.refused _ _); [discriminate |].
    world_simpl. rewrite Hsrc in Hren. injection Hren as <-.
    intros [= <-]. world_simpl. rewrite lookup_insert_eq. eauto.
Qed.

(** A move with a conflict resolved by renaming. *)
Lemma MoveFile_success_delivers_content_witness :
  ∃ w' m, processor.MoveFile "/in/a.pdf" "/out" "rename"
            (examples.world examples.conflict_files (examples.refusing []))
          = (None, w')
          ∧ os.files w' !! "/out/a_1.pdf" = Some (os.File "new bytes" m).
Proof.
  destruct (MoveFile_success_delivers_content "/in/a.pdf" "/out" "rename"
              (examples.world examples.conflict_files (examples.refusing []))
              "/out/a_1.pdf" _
              (snd (processor.MoveFile "/in/a.pdf" "/out" "rename"
                      (examples.world examples.conflict_files (examples.refusing []))))
              "new bytes" 420 eq_refl) as (m & Hm);
    [discriminate | reflexivity | reflexivity |].
  eexists _, m. split; [reflexivity | exact Hm].
Defined.

(** *** Conflicts *)

Lemma stat_IsNotExist_frame w w' p :
  os.clock w' = os.clock w → os.env w' = os.env w →
  os.files w' !! p = os.files w !! p →
  processor.stat_IsNotExist w' p = processor.stat_IsNotExist w p.
Proof.
  intros Hc He Hf. unfold processor.stat_IsNotExist.
  now rewrite (Stat_frame w w').
Qed.

(** The name generated depends on the files, the clock and the
    environment only. *)
Lemma generateUniqueName_frame destPath w w' :
  os.clock w' = os.clock w → os.env w' = os.env w →
  os.files w' = os.files w →
  processor.generateUniqueName destPath w' = processor.generateUniqueName destPath w.
Proof.
  intros Hc He Hf.
  unfold processor.generateUniqueName, processor.generateUniqueName_run.
  f_equal. generalize 1%Z as counter. generalize 1000%nat as fuel.
  induction fuel as [|fuel IH]; intros counter; [reflexivity |].
  cbn [processor.generateUniqueName_loop].
  rewrite (stat_IsNotExist_frame w w') by (auto; now rewrite Hf).
  rewrite IH. unfold os.Now. now rewrite Hc, He.
Qed.

(** The first half of [MoveFile] on a conflict, the destination
    directory being there. *)
Lemma MoveFile_destination_conflict src destDir strategy w sinfo dinfo :
  os.Stat w src = inl sinfo → os.IsDir sinfo = false →
  os.files w !! destDir = Some os.Directory →
  os.refused w (os.CMkdirAll destDir) = None →
  os.Stat w (filepath.Join destDir (filepath.Base src)) = inl dinfo →
  processor.MoveFile_destination src destDir strategy w
  = match processor.handleConflict (filepath.Join destDir (filepath.Base src)) strategy
            (os.log os.Debug "Destination file already exists, applying conflict strategy"
               (os.log os.Debug "Destination directory ready"
                  (os.log os.Debug "Ensuring destination directory exists"
                     (os.log os.Debug "Starting file move" w)))) with
    | ((_, Some err), w2) => inl (Some err, w2)
    | ((destPath, None), w2) => inr (destPath, w2)
    end.
Proof.
  intros Hs Hd Hdir Hmk Hdst. unfold processor.MoveFile_destination.
  rewrite Hs, Hd, MkdirAll_existing by assumption.
  now rewrite !Stat_log, Hdst.
Qed.

(** X3.  The strategy [rename] never costs the file that was at the
    destination: when the source is a regular file, a different file
    occupies [destDir/filename], the name [generateUniqueName] comes up
    with is free and the rename to it is granted, [MoveFile] returns
    success, the file at [destDir/filename] is as it was, the source's
    file is under the generated name, and the source path names nothing
    any more. *)
Theorem MoveFile_rename_keeps_destination
    (src destDir : string) (w : os.World) (sinfo dinfo : os.FileInfo) :
  let dst := filepath.Join destDir (filepath.Base src) in
  let fresh := processor.generateUniqueName dst w in
  os.Stat w src = inl sinfo → os.IsDir sinfo = false →
  os.files w !! destDir = Some os.Directory →
  os.refused w (os.CMkdirAll destDir) = None →
  os.Stat w dst = inl dinfo →
  src ≠ dst →
  processor.stat_IsNotExist w fresh = true →
  os.refused w (os.CRename src fresh) = None →
  ∃ w', processor.MoveFile src destDir "rename" w = (None, w')
        ∧ os.files w' !! dst = os.files w !! dst
        ∧ os.files w' !! fresh = os.files w !! src
        ∧ os.files w' !! src = None.
Proof.
  intros dst fresh Hs Hd Hdir Hmk Hdst Hne Hfree Hren.
  assert (Hfresh_dst : fresh ≠ dst).
  { intros Heq. unfold processor.stat_IsNotExist in Hfree.
    rewrite Heq, Hdst in Hfree. discriminate. }
  assert (Hfresh_src : fresh ≠ src).
  { intros Heq. unfold processor.stat_IsNotExist in Hfree.
    rewrite Heq, Hs in Hfree. discriminate. }
  unfold processor.MoveFile.
  rewrite (MoveFile_destination_conflict _ _ _ _ sinfo dinfo) by assumption.
  fold dst. unfold processor.handleConflict. cbn [String.eqb Ascii.eqb Bool.eqb].
  rewrite (generateUniqueName_frame dst w) by reflexivity. fold fresh.
  apply Stat_inl in Hs as (n & Hn & _).
  unfold processor.MoveFile_relocate.
  rewrite (Rename_granted _ _ _ n) by assumption.
  eexists. split; [reflexivity |]. world_simpl.
  rewrite lookup_insert_ne, lookup_delete_ne, lookup_insert_eq,
    lookup_insert_ne, lookup_delete_eq by auto.
  auto.
Qed.

Lemma MoveFile_rename_keeps_destination_witness :
  ∃ w', processor.MoveFile "/in/a.pdf" "/out" "rename"
          (examples.world examples.conflict_files (examples.refusing []))
        = (None, w')
        ∧ os.files w' !! "/out/a.pdf" = Some (os.File "old bytes" 384)
        ∧ os.files w' !! "/out/a_1.pdf" = Some (os.File "new bytes" 420)
        ∧ os.files w' !! "/in/a.pdf" = None.
Proof.
  destruct (MoveFile_rename_keeps_destination "/in/a.pdf" "/out"
              (examples.world examples.conflict_files (examples.refusing []))
              (os.info_of (os.File "new bytes" 420))
              (os.info_of (os.File "old bytes" 384)))
    as (w' & Hmove & Hdst & Hfresh & Hsrc);
    try reflexivity; try discriminate.
  exists w'. split; [exact Hmove |]. split; [exact (eq_trans Hdst eq_refl) |].
  split; [exact (eq_trans Hfresh eq_refl) | exact Hsrc].
Defined.

(** X4.  The strategy [overwrite] replaces the file at the destination:
    under the same conditions, the rename onto [destDir/filename] being
    granted, [MoveFile] returns success, [destDir/filename] names the
    source's file, content and mode, and the source path names nothing
    any more; what was at the destination is gone. *)
Theorem MoveFile_overwrite_replaces_destination
    (src destDir : string) (w : os.World) (sinfo dinfo : os.FileInfo) :
  let dst := filepath.Join destDir (filepath.Base src) in
  os.Stat w src = inl sinfo → os.IsDir sinfo = false →
  os.files w !! destDir = Some os.Directory →
  os.refused w (os.CMkdirAll destDir) = None →
  os.Stat w dst = inl dinfo →
  src ≠ dst →
  os.refused w (os.CRename src dst) = None →
  ∃ w', processor.MoveFile src destDir "overwrite" w = (None, w')
        ∧ os.files w' !! dst = os.files w !! src
        ∧ os.files w' !! src = None.
Proof.
  intros dst Hs Hd Hdir Hmk Hdst Hne Hren.
  unfold processor.MoveFile.
  rewrite (MoveFile_destination_conflict _ _ _ _ sinfo dinfo) by assumption.
  fold dst. unfold processor.handleConflict. cbn [String.eqb Ascii.eqb Bool.eqb].
  apply Stat_inl in Hs as (n & Hn & _).
  unfold processor.MoveFile_relocate.
  rewrite (Rename_granted _ _ _ n) by assumption.
  eexists. split; [reflexivity |]. world_simpl.
  rewrite lookup_insert_eq, lookup_insert_ne, lookup_delete_eq by auto.
  auto.
Qed.

Lemma MoveFile_overwrite_replaces_destination_witness :
  ∃ w', processor.MoveFile "/in/a.pdf" "/out" "overwrite"
          (examples.world examples.conflict_files (examples.refusing []))
        = (None, w')
        ∧ os.files w' !! "/out/a.pdf" = Some (os.File "new bytes" 420)
        ∧ os.files w' !! "/in/a.pdf" = None.
Proof.
  destruct (MoveFile_overwrite_replaces_destination "/in/a.pdf" "/out"
              (examples.world examples.conflict_files (examples.refusing []))
              (os.info_of (os.File "new bytes" 420))
              (os.info_of (os.File "old bytes" 384)))
    as (w' & Hmove & Hdst & Hsrc);
    try reflexivity; try discriminate.
  exists w'. split; [exact Hmove |]. split; [exact (eq_trans Hdst eq_refl) | exact Hsrc].
Defined.

(** X5.  While one of the thousand counter names is free, the name
    [generateUniqueName] returns is not present on disk; so it is never
    the name of a file that [os.Stat] finds, the occupied destination
    included, and asking again once a file is there under the name
    returned gives another name. *)
Theorem generateUniqueName_is_free (destPath : string) (w : os.World) (k : Z) :
  (1 <= k <= 1000)%Z →
  processor.stat_IsNotExist w
    (filepath.Join (filepath.Dir destPath)
       (gostrings.TrimSuffix (filepath.Base destPath) (filepath.Ext destPath)
        +:+ "_" +:+ fmt.d k +:+ filepath.Ext destPath)) = true →
  processor.stat_IsNotExist w (processor.generateUniqueName destPath w) = true
  ∧ ∀ p info, os.Stat w p = inl info → processor.generateUniqueName destPath w ≠ p.
Proof.
  intros Hk Hfree.
  assert (Hname : processor.stat_IsNotExist w
                    (processor.generateUniqueName destPath w) = true).
  { unfold processor.generateUniqueName.
    rewrite generateUniqueName_returns. cbn [default from_option id].
    unfold spec.unique_name.
    destruct (List.find _ spec.counters) as [j|] eqn:Hfind.
    - apply List.find_some in Hfind as [_ Hj]. exact Hj.
    - apply List.find_none with (x := k) in Hfind; [congruence |].
      unfold spec.counters. apply List.in_map_iff.
      exists (Z.to_nat k). split; [lia |]. apply List.in_seq. lia. }
  split; [exact Hname |].
  intros p info Hp Heq. unfold processor.stat_IsNotExist in Hname.
  rewrite Heq, Hp in Hname. discriminate.
Qed.

Lemma generateUniqueName_is_free_witness :
  processor.generateUniqueName "/out/a.pdf"
    (examples.world examples.conflict_files (examples.refusing []))
  ≠ "/out/a.pdf".
Proof.
  destruct (generateUniqueName_is_free "/out/a.pdf"
              (examples.world examples.conflict_files (examples.refusing [])) 1)
    as [_ Hother]; [lia | reflexivity |].
  apply (Hother "/out/a.pdf" (os.info_of (os.File "old bytes" 384))).
  reflexivity.
Defined.

(** *** The test for a move across devices *)

Lemma HasPrefix_append s t sub :
  gostrings.HasPrefix s sub = true → gostrings.HasPrefix (s +:+ t) sub = true.
Proof.
  revert s. induction sub as [|c sub IH]; intros s;
    [intros _; destruct (s +:+ t); reflexivity |].
  destruct s as [|d s]; [discriminate |].
  change (String d s +:+ t) with (String d (s +:+ t)).
  change (gostrings.HasPrefix (String d s) (String c sub))
    with (Ascii.eqb d c && gostrings.HasPrefix s sub).
  change (gostrings.HasPrefix (String d (s +:+ t)) (String c sub))
    with (Ascii.eqb d c && gostrings.HasPrefix (s +:+ t) sub).
  destruct (Ascii.eqb d c); cbn [andb]; [apply IH | discriminate].
Qed.

Lemma Contains_append_l a b sub :
  gostrings.Contains a sub = true → gostrings.Contains (a +:+ b) sub = true.
Proof.
  induction a as [|c a IH].
  - change (gostrings.Contains "" sub)
      with (gostrings.HasPrefix "" sub || false).
    rewrite orb_false_r. intros H. change ("" +:+ b) with b.
    destruct sub as [|d sub]; [| discriminate H].
    destruct b; reflexivity.
  - change (String c a +:+ b) with (String c (a +:+ b)).
    change (gostrings.Contains (String c a) sub)
      with (gostrings.HasPrefix (String c a) sub || gostrings.Contains a sub).
    change (gostrings.Contains (String c (a +:+ b)) sub)
      with (gostrings.HasPrefix (String c (a +:+ b)) sub
            || gostrings.Contains (a +:+ b) sub).
    rewrite !orb_true_iff.
    intros [H | H]; [left | right; auto].
    now apply (HasPrefix_append (String c a)).
Qed.

(** X6.  [MoveFile] tells a move across devices by the text of the
    error, and the text of a rename error spells out both paths: a rename
    that failed for any reason at all is taken for a move across devices
    as soon as the source path or the destination path contains
    ["cross-device"]. *)
Theorem cross_device_by_path (old new : string) (e : os.Errno) :
  gostrings.Contains old "cross-device" = true
  ∨ gostrings.Contains new "cross-device" = true →
  processor.cross_device (os.LinkError "rename" old new e) = true.
Proof.
  intros H. unfold processor.cross_device. apply orb_true_intro. left.
  cbn [os.Error].
  destruct H as [H | H].
  - do 2 apply Contains_append_r. now apply Contains_append_l.
  - do 4 apply Contains_append_r. now apply Contains_append_l.
Qed.

(** A rename refused for want of permission, of a file whose name has
    the words in it. *)
Lemma cross_device_by_path_witness :
  processor.cross_device
    (os.LinkError "rename" "/in/cross-device-notes.txt" "/out/cross-device-notes.txt"
       os.EACCES) = true.
Proof. apply cross_device_by_path. left. reflexivity. Defined.

(** *** The worker *)

(** X7.  A job whose file matches no rule leaves every file where it is:
    the worker logs that no rule matches and is done. *)
Theorem worker_job_without_match_moves_nothing (job : watcher.Job) (w : os.World) :
  (∀ r, r ∈ watcher.JobRules job → ¬ spec.rule_matches (watcher.FilePath job) r) →
  watcher.worker_job job w
  = os.log os.Debug "No matching rule for file"
      (os.log os.Debug "Worker processing file" w)
  ∧ os.files (watcher.worker_job job w) = os.files w.
Proof.
  intros Hnone.
  assert (Hmatch : processor.MatchRule (watcher.FilePath job) (watcher.JobRules job)
                   = None).
  { unfold processor.MatchRule. apply MatchRule_loop_None.
    intros r Hr. apply not_matches_iff. exact (Hnone r Hr). }
  unfold watcher.worker_job. rewrite Hmatch. split; reflexivity.
Qed.

Lemma worker_job_without_match_moves_nothing_witness :
  os.files
    (watcher.worker_job
       {| watcher.FilePath := "/in/a.pdf"; watcher.JobRules := [examples.archives] |}
       (examples.world examples.inbox_files (examples.refusing [])))
  !! "/in/a.pdf"
  = Some (os.File "new bytes" 420).
Proof.
  destruct (worker_job_without_match_moves_nothing
              {| watcher.FilePath := "/in/a.pdf"; watcher.JobRules := [examples.archives] |}
              (examples.world examples.inbox_files (examples.refusing [])))
    as [_ Hfiles].
  - intros r Hr. apply list_elem_of_singleton in Hr as ->.
    intros ([Hnone | (e & He & Hext)] & _).
    + discriminate Hnone.
    + apply list_elem_of_singleton in He as ->. discriminate Hext.
  - rewrite Hfiles. reflexivity.
Defined.

(** X8.  A job whose file has vanished, or has turned out to be a
    directory, by the time the worker gets to it, is reported as
    completed: [MoveFile] warns and returns [nil] before it has made the
    destination directory, no file changes, and the worker logs
    ["Worker completed job"]. *)
Theorem worker_job_skipped_source_is_completed
    (job : watcher.Job) (i : nat) (rule : config.Rule) (w : os.World) :
  processor.MatchRule (watcher.FilePath job) (watcher.JobRules job) = Some (i, rule) →
  (∀ err, os.Stat w (watcher.FilePath job) = inr err → os.IsNotExist err = true →
     watcher.worker_job job w
     = os.log os.Info "Worker completed job"
         (os.log os.Warn "Source file no longer exists, skipping"
            (os.log os.Info "Worker matched rule"
               (os.log os.Debug "Worker processing file" w))))
  ∧ (∀ info, os.Stat w (watcher.FilePath job) = inl info → os.IsDir info = true →
       watcher.worker_job job w
       = os.log os.Info "Worker completed job"
           (os.log os.Warn "Source is a directory, not a file, skipping"
              (os.log os.Info "Worker matched rule"
                 (os.log os.Debug "Worker processing file" w)))).
Proof.
  intros Hmatch. split.
  - intros err Hs Hgone. unfold watcher.worker_job. rewrite Hmatch.
    unfold processor.MoveFile, processor.MoveFile_destination.
    now rewrite !Stat_log, Hs, Hgone.
  - intros info Hs Hdir. unfold watcher.worker_job. rewrite Hmatch.
    unfold processor.MoveFile, processor.MoveFile_destination.
    now rewrite !Stat_log, Hs, Hdir.
Qed.

Lemma worker_job_skipped_source_is_completed_witness :
  last (os.out (watcher.worker_job examples.a_pdf_job
                  (examples.world examples.vanished_files (examples.refusing []))))
  = Some (os.Log os.Info "Worker completed job")
  ∧ os.files (watcher.worker_job examples.a_pdf_job
                (examples.world examples.vanished_files (examples.refusing [])))
    !! "/out/a.pdf"
    = Some (os.File "old bytes" 384).
Proof.
  destruct (worker_job_skipped_source_is_completed examples.a_pdf_job 1
              (examples.rule [".pdf"] [] [] [] "/out" "rename")
              (examples.world examples.vanished_files (examples.refusing []))
              eq_refl) as [Hgone _].
  rewrite (Hgone (os.PathError "stat" "/in/a.pdf" os.ENOENT) eq_refl eq_refl).
  split; reflexivity.
Defined.

(* ===================================================================== *)
(** ** More on the validation of the configuration *)
(* ===================================================================== *)

Section ValidationMore.
Import config.

Variable ParseDuration : string -> Z + os.error.

Lemma validStrategies_spec s :
  config.validStrategies s = true ↔ s ∈ ["rename"; "overwrite"; "skip"].
Proof.
  unfold config.validStrategies. rewrite !orb_true_iff, !String.eqb_eq.
  rewrite !elem_of_cons, elem_of_nil. tauto.
Qed.

Lemma Validate_rules_valid monitor rules : ∀ j w w',
  config.Validate_rules monitor j rules w = (None, w') →
  ∀ r, r ∈ rules → spec.valid_rule r.
Proof.
  induction rules as [|rule rules IH]; intros j w w' Hv r Hr;
    [inversion Hr |].
  cbn [config.Validate_rules] in Hv.
  destruct (String.eqb_spec (Name rule) ""); [discriminate |].
  destruct (_ && _ && _) eqn:Hnone; [discriminate |].
  destruct (String.eqb_spec (Destination rule) ""); [discriminate |].
  destruct (config.validStrategies _) eqn:Hstrategy; [| discriminate].
  cbn [negb] in Hv.
  destruct (os.MkdirAll _ w) as [[e|] w1]; [discriminate |].
  apply elem_of_cons in Hr as [-> | Hr]; [| eauto].
  unfold spec.valid_rule. split; [assumption |]. split; [| split; [assumption |]].
  - unfold spec.has_criterion.
    destruct (Extensions rule), (NameContains rule), (NameStartsWith rule);
      try discriminate; auto.
  - now apply validStrategies_spec.
Qed.

Lemma Validate_monitors_valid monitors : ∀ i w w',
  config.Validate_monitors i monitors w = (None, w') →
  ∀ m, m ∈ monitors → spec.valid_monitor m.
Proof.
  induction monitors as [|monitor monitors IH]; intros i w w' Hv m Hm;
    [inversion Hm |].
  cbn [config.Validate_monitors] in Hv.
  destruct (String.eqb_spec (MonitorName monitor) ""); [discriminate |].
  destruct (match os.Stat w _ with inl _ => false | inr e => os.IsNotExist e end);
    [discriminate |].
  destruct (List.length (Rules monitor) =? 0)%nat eqn:Hlen; [discriminate |].
  destruct (config.Validate_rules monitor 0 (Rules monitor) w) as [[e|] w1] eqn:Hrules;
    [discriminate |].
  apply elem_of_cons in Hm as [-> | Hm]; [| eauto].
  unfold spec.valid_monitor. split; [assumption |]. split.
  - intros Hnil. rewrite Hnil in Hlen. discriminate.
  - eapply Validate_rules_valid; eauto.
Qed.

(** X9.  A configuration [Validate] accepts is well formed throughout:
    the log level is one of the four, the delay parses to a duration that
    is not negative (so that the [ParseDelayDuration] call [main] makes
    next cannot fail), there is at least one worker and one monitor, and
    every monitor has a name and rules, each rule with a name, a
    criterion among extensions, contains and starts-with, a destination
    and one of the three strategies. *)
Theorem Validate_accepted_config_is_well_formed (c : Config) (w w' : os.World) :
  config.Validate ParseDuration c w = (None, w') →
  LogLevel (settings c) ∈ ["debug"; "info"; "warn"; "error"]
  ∧ (∃ d, config.ParseDelayDuration ParseDuration c = inl d ∧ (0 <= d)%Z)
  ∧ (0 < MaxWorkers (settings c))%Z
  ∧ Monitors c ≠ []
  ∧ ∀ m, m ∈ Monitors c → spec.valid_monitor m.
Proof.
  unfold config.Validate. intros Hv.
  destruct (config.validLogLevels _) eqn:Hlevel; [| discriminate].
  cbn [negb] in Hv.
  destruct (config.ParseDelayDuration _ _) as [d | e] eqn:Hdelay; [| discriminate].
  destruct (Z.leb_spec (MaxWorkers (settings c)) 0); [discriminate |].
  destruct (List.length (Monitors c) =? 0)%nat eqn:Hlen; [discriminate |].
  split; [| split; [| split; [| split]]].
  - unfold config.validLogLevels in Hlevel.
    rewrite !orb_true_iff, !String.eqb_eq in Hlevel.
    rewrite !elem_of_cons, elem_of_nil. tauto.
  - exists d. split; [reflexivity |].
    unfold config.ParseDelayDuration in Hdelay.
    destruct (ParseDuration _); [| discriminate].
    destruct (Z.ltb_spec z 0); [discriminate |]. injection Hdelay as <-. assumption.
  - assumption.
  - intros Hnil. rewrite Hnil in Hlen. discriminate.
  - eapply Validate_monitors_valid; eauto.
Qed.

(** *** What validation does to the disk *)

Lemma extends_refl w : spec.extends w w.
Proof. unfold spec.extends. auto. Qed.

Lemma extends_trans w1 w2 w3 :
  spec.extends w1 w2 → spec.extends w2 w3 → spec.extends w1 w3.
Proof.
  intros (Hc & He & Ho & Hf) (Hc' & He' & Ho' & Hf').
  unfold spec.extends. rewrite Hc', He', Ho'. repeat split; auto.
Qed.

Lemma MkdirAll_extends d w r w' :
  os.MkdirAll d w = (r, w') →
  spec.extends w w' ∧ (r = None → os.files w' !! d = Some os.Directory).
Proof.
  unfold os.MkdirAll. destruct (os.refused w _).
  - intros [= <- <-]. split; [apply extends_refl | discriminate].
  - destruct (os.files w !! d) as [[c m|]|] eqn:Hd; intros [= <- <-].
    + split; [apply extends_refl | discriminate].
    + split; [apply extends_refl | auto].
    + split.
      * unfold spec.extends. world_simpl. repeat split.
        intros p n Hp. rewrite lookup_insert_ne; [assumption | congruence].
      * intros _. world_simpl. apply lookup_insert_eq.
Qed.

Lemma Validate_rules_extends monitor rules : ∀ j w r w',
  config.Validate_rules monitor j rules w = (r, w') →
  spec.extends w w'
  ∧ (r = None → ∀ rule, rule ∈ rules →
                 os.files w' !! Destination rule = Some os.Directory).
Proof.
  induction rules as [|rule rules IH]; intros j w r w' Hv.
  { injection Hv as <- <-. split; [apply extends_refl |].
    intros _ rule Hr. inversion Hr. }
  cbn [config.Validate_rules] in Hv.
  repeat match type of Hv with
         | (if ?b then _ else _) = _ =>
             destruct b;
             [injection Hv as <- <-; split; [apply extends_refl | discriminate] |]
         end.
  destruct (os.MkdirAll _ w) as [[e|] w1] eqn:Hmk;
    apply MkdirAll_extends in Hmk as [Hext Hdir].
  - injection Hv as <- <-. split; [assumption | discriminate].
  - apply IH in Hv as [Hext' Hdirs]. split; [eauto using extends_trans |].
    intros -> r0 Hr. apply elem_of_cons in Hr as [-> | Hr]; [| auto].
    destruct Hext' as (_ & _ & _ & Hf). auto.
Qed.

Lemma Validate_monitors_extends monitors : ∀ i w r w',
  config.Validate_monitors i monitors w = (r, w') →
  spec.extends w w'
  ∧ (r = None → ∀ m rule, m ∈ monitors → rule ∈ Rules m →
                 os.files w' !! Destination rule = Some os.Directory).
Proof.
  induction monitors as [|monitor monitors IH]; intros i w r w' Hv.
  { injection Hv as <- <-. split; [apply extends_refl |].
    intros _ m rule Hm. inversion Hm. }
  cbn [config.Validate_monitors] in Hv.
  repeat match type of Hv with
         | (if ?b then _ else _) = _ =>
             destruct b;
             [injection Hv as <- <-; split; [apply extends_refl | discriminate] |]
         end.
  destruct (config.Validate_rules monitor 0 (Rules monitor) w) as [[e|] w1] eqn:Hrules;
    apply Validate_rules_extends in Hrules as [Hext Hdirs].
  - injection Hv as <- <-. split; [assumption | discriminate].
  - apply IH in Hv as [Hext' Hdirs']. split; [eauto using extends_trans |].
    intros -> m rule Hm Hr. apply elem_of_cons in Hm as [-> | Hm]; [| eauto].
    destruct Hext' as (_ & _ & _ & Hf). auto.
Qed.

(** X10.  Whether it accepts or rejects, [Validate] only ever adds
    directories: what a path named before, it names after.  When it
    accepts, the destination of every rule is a directory afterwards,
    made on the way if it was missing. *)
Theorem Validate_makes_destinations (c : Config) (w : os.World)
    (r : option os.error) (w' : os.World) :
  config.Validate ParseDuration c w = (r, w') →
  (∀ p n, os.files w !! p = Some n → os.files w' !! p = Some n)
  ∧ (r = None → ∀ m rule, m ∈ Monitors c → rule ∈ Rules m →
                 os.files w' !! Destination rule = Some os.Directory).
Proof.
  unfold config.Validate. intros Hv.
  assert (Hrejected : ∀ e, (r, w') = (Some e, w) →
            (∀ p n, os.files w !! p = Some n → os.files w' !! p = Some n)
            ∧ (r = None → ∀ m rule, m ∈ Monitors c → rule ∈ Rules m →
                 os.files w' !! Destination rule = Some os.Directory)).
  { intros e [= -> ->]. split; [auto | discriminate]. }
  destruct (negb _); [eauto |].
  destruct (config.ParseDelayDuration _ _); [| eauto].
  destruct (MaxWorkers _ <=? 0)%Z; [eauto |].
  destruct (List.length (Monitors c) =? 0)%nat; [eauto |].
  apply Validate_monitors_extends in Hv as [(_ & _ & _ & Hf) Hdirs]. auto.
Qed.

End ValidationMore.

Lemma Validate_makes_destinations_witness :
  ∃ w', config.Validate examples.two_seconds (examples.config_of examples.skipping)
          (examples.world examples.inbox_files (examples.refusing []))
        = (None, w')
        ∧ os.files w' !! "/archive" = Some os.Directory
        ∧ os.files w' !! "/in/a.pdf" = Some (os.File "new bytes" 420).
Proof.
  eexists. split; [reflexivity |].
  destruct (Validate_makes_destinations examples.two_seconds
              (examples.config_of examples.skipping)
              (examples.world examples.inbox_files (examples.refusing []))
              _ _ eq_refl) as [Hkept Hmade].
  split.
  - apply (Hmade eq_refl examples.skipping
             (examples.rule [".pdf"] [] [] [] "/archive" "skip"));
      apply list_elem_of_singleton; reflexivity.
  - apply Hkept. reflexivity.
Defined.

Lemma Validate_accepted_config_is_well_formed_witness :
  spec.valid_monitor examples.skipping.
Proof.
  destruct (Validate_accepted_config_is_well_formed examples.two_seconds
              (examples.config_of examples.skipping)
              (examples.world examples.inbox_files (examples.refusing []))
              _ eq_refl) as (_ & _ & _ & _ & Hmonitors).
  apply Hmonitors. apply list_elem_of_singleton. reflexivity.
Defined.

(** X11.  Of the three strategies [Validate] lets through, [skip] is the
    one the mover does not know: for a strategy that passed validation,
    [handleConflict] returns an error exactly when it is ["skip"], so a
    validated rule with that strategy fails every move that meets a
    conflict. *)
Theorem validated_skip_fails_on_conflict (strategy dst : string) (w : os.World) :
  config.validStrategies strategy = true →
  (snd (fst (processor.handleConflict dst strategy w)) ≠ None ↔ strategy = "skip").
Proof.
  unfold config.validStrategies. rewrite !orb_true_iff, !String.eqb_eq.
  intros [[-> | ->] | ->]; unfold processor.handleConflict;
    cbn [String.eqb Ascii.eqb Bool.eqb fst snd]; split; try discriminate;
    try (intros H; exfalso; now apply H); reflexivity.
Qed.

Lemma validated_skip_fails_on_conflict_witness :
  snd (fst (processor.handleConflict "/out/a.pdf" "skip"
              (examples.world examples.conflict_files (examples.refusing []))))
  ≠ None.
Proof.
  apply (validated_skip_fails_on_conflict "skip" "/out/a.pdf"
           (examples.world examples.conflict_files (examples.refusing [])));
    reflexivity.
Defined.

(* ===================================================================== *)
(** ** More on the watcher *)
(* ===================================================================== *)

(** *** Byte strings *)

Lemma string_length_append a b :
  String.length (a +:+ b) = (String.length a + String.length b)%nat.
Proof.
  induction a as [|c a IH]; [reflexivity |].
  change (S (String.length (a +:+ b)) = S (String.length a + String.length b)).
  now f_equal.
Qed.

Lemma substring_whole b : substring 0 (String.length b) b = b.
Proof.
  induction b as [|c b IH]; [reflexivity |].
  change (String c (substring 0 (String.length b) b) = String c b).
  now f_equal.
Qed.

Lemma substring_after a b :
  substring (String.length a) (String.length b) (a +:+ b) = b.
Proof. induction a as [|c a IH]; [apply substring_whole | exact IH]. Qed.

Lemma substring_before a b : substring 0 (String.length a) (a +:+ b) = a.
Proof.
  induction a as [|c a IH]; [destruct b; reflexivity |].
  change (String c (substring 0 (String.length a) (a +:+ b)) = String c a).
  now f_equal.
Qed.

Lemma HasSuffix_append a b : gostrings.HasSuffix (a +:+ b) b = true.
Proof.
  unfold gostrings.HasSuffix. cbv zeta. rewrite string_length_append.
  replace (String.length a + String.length b - String.length b)%nat
    with (String.length a) by lia.
  rewrite substring_after, String.eqb_refl, andb_true_r.
  apply Nat.leb_le. lia.
Qed.

Lemma TrimSuffix_append a b : gostrings.TrimSuffix (a +:+ b) b = a.
Proof.
  unfold gostrings.TrimSuffix. rewrite HasSuffix_append, string_length_append.
  replace (String.length a + String.length b - String.length b)%nat
    with (String.length a) by lia.
  apply substring_before.
Qed.

Lemma ToLower_append a b :
  gostrings.ToLower (a +:+ b) = gostrings.ToLower a +:+ gostrings.ToLower b.
Proof.
  induction a as [|c a IH]; [reflexivity |].
  change (String (gostrings.lower_byte c) (gostrings.ToLower (a +:+ b))
          = String (gostrings.lower_byte c)
              (gostrings.ToLower a +:+ gostrings.ToLower b)).
  now f_equal.
Qed.

Lemma lower_byte_idempotent c :
  gostrings.lower_byte (gostrings.lower_byte c) = gostrings.lower_byte c.
Proof. destruct c as [[] [] [] [] [] [] [] []]; reflexivity. Qed.

Lemma ToLower_idempotent s :
  gostrings.ToLower (gostrings.ToLower s) = gostrings.ToLower s.
Proof.
  induction s as [|c s IH]; [reflexivity |].
  change (String (gostrings.lower_byte (gostrings.lower_byte c))
            (gostrings.ToLower (gostrings.ToLower s))
          = String (gostrings.lower_byte c) (gostrings.ToLower s)).
  now rewrite lower_byte_idempotent, IH.
Qed.

(** *** The filters *)

(** X12.  The temporary-file filter goes by the end of the name and not
    by its case: a name that ends in one of the six suffixes, in any
    spelling, is temporary; and a name is temporary exactly when its
    lower-cased form is. *)
Theorem isTempFile_by_suffix_any_case (name spelling ext : string) :
  ext ∈ watcher.tempExtensions → gostrings.ToLower spelling = ext →
  watcher.isTempFile (name +:+ spelling) = true
  ∧ ∀ filename, watcher.isTempFile (gostrings.ToLower filename)
                = watcher.isTempFile filename.
Proof.
  intros Hext Hspelling. split.
  - unfold watcher.isTempFile. apply List.existsb_exists.
    exists ext. split; [now apply list_elem_of_In |].
    rewrite ToLower_append, Hspelling. apply HasSuffix_append.
  - intros filename. unfold watcher.isTempFile.
    now rewrite ToLower_idempotent.
Qed.

Lemma isTempFile_by_suffix_any_case_witness :
  watcher.isTempFile ("Movie.mkv" +:+ ".CrDownload") = true.
Proof.
  apply (isTempFile_by_suffix_any_case "Movie.mkv" ".CrDownload" ".crdownload").
  - unfold watcher.tempExtensions. rewrite !elem_of_cons. auto.
  - reflexivity.
Defined.

(** *** The readiness check *)

(** What the loop of [IsFileReady] can have done when it returns: waited
    the delay a number of times that the attempts left bound, changed no
    file, and, when it answers ready, found the path in the file
    table. *)
Lemma IsFileReady_loop_bounded todo : ∀ i fw path w r w',
  watcher.IsFileReady_loop todo i fw path w = (r, w') →
  os.files w' = os.files w ∧ os.env w' = os.env w
  ∧ (∃ k : nat, (Z.of_nat k <= Z.max 0 (watcher.maxRetries - 1 - i))%Z
                ∧ os.clock w' = (os.clock w + Z.of_nat k * watcher.delay fw)%Z)
  ∧ (r = true → is_Some (os.files w !! path)).
Proof.
  induction todo as [|todo IH]; intros i fw path w r w' Hloop.
  { injection Hloop as <- <-.
    split; [reflexivity |]. split; [reflexivity |]. split; [| discriminate].
    exists 0%nat. split; lia. }
  cbn [watcher.IsFileReady_loop] in Hloop.
  assert (Hnow : ∀ l m, (Z.of_nat 0 <= Z.max 0 (watcher.maxRetries - 1 - i))%Z
                        ∧ os.clock (os.log l m w)
                          = (os.clock w + Z.of_nat 0 * watcher.delay fw)%Z).
  { intros l m. cbn [os.log os.clock]. split; lia. }
  destruct (os.Open w path) as [file | err] eqn:Hopen.
  - assert (Hthere : is_Some (os.files w !! path)).
    { unfold os.Open in Hopen. destruct (os.refused w _); [discriminate |].
      destruct (os.files w !! path); [eauto | discriminate]. }
    unfold os.Close in Hloop.
    destruct (os.Stat w path) as [info | err].
    + destruct (os.Size info =? 0)%Z; injection Hloop as <- <-.
      * split; [reflexivity |]. split; [reflexivity |]. split; [| auto].
        exists 0%nat. apply Hnow.
      * split; [reflexivity |]. split; [reflexivity |]. split; [| auto].
        exists 0%nat. split; lia.
    + injection Hloop as <- <-.
      split; [reflexivity |]. split; [reflexivity |]. split; [| discriminate].
      exists 0%nat. apply Hnow.
  - destruct (os.IsNotExist err || os.IsPermission err).
    { injection Hloop as <- <-.
      split; [reflexivity |]. split; [reflexivity |]. split; [| discriminate].
      exists 0%nat. apply Hnow. }
    destruct (Z.ltb_spec i (watcher.maxRetries - 1)) as [Hlt | Hge];
      apply IH in Hloop as (Hf & He & (k & Hk & Hc) & Hr).
    + cbn [os.Sleep os.log os.files os.env os.clock] in Hf, He, Hc, Hr.
      split; [assumption |]. split; [assumption |]. split; [| assumption].
      exists (S k). split; [lia |]. rewrite Hc. lia.
    + split; [assumption |]. split; [assumption |]. split; [| assumption].
      exists k. split; [lia | assumption].
Qed.

(** X13.  The readiness check is bounded and reads only: whatever the
    file does, [IsFileReady] has waited the configured delay at most
    twice when it returns (one time fewer than it makes attempts), the
    files and the environment are as they were, and an answer of ready
    means the path named something when it was opened. *)
Theorem IsFileReady_waits_at_most_twice
    (fw : watcher.FileWatcher) (path : string) (w : os.World) :
  os.files (snd (watcher.IsFileReady fw path w)) = os.files w
  ∧ os.env (snd (watcher.IsFileReady fw path w)) = os.env w
  ∧ (∃ k : nat, (k <= 2)%nat
                ∧ os.clock (snd (watcher.IsFileReady fw path w))
                  = (os.clock w + Z.of_nat k * watcher.delay fw)%Z)
  ∧ (fst (watcher.IsFileReady fw path w) = true → is_Some (os.files w !! path)).
Proof.
  unfold watcher.IsFileReady.
  destruct (watcher.IsFileReady_loop _ 0 fw path w) as [r w'] eqn:Hloop.
  apply IsFileReady_loop_bounded in Hloop as (Hf & He & (k & Hk & Hc) & Hr).
  cbn [fst snd]. repeat split; [assumption | assumption | | assumption].
  exists k. split; [| assumption].
  unfold watcher.maxRetries in Hk. lia.
Qed.

(** *** Events *)

(** X14.  Whatever the event, [handleEvent] touches no file, keeps the
    monitor and the delay of the watcher, only ever adds to the
    subscriptions, and what it adds is the path of the event, on a
    creation event (one that is not also a permission change) under a
    recursive monitor, for a path that is a directory; and it holds the
    event loop for two delays at most. *)
Theorem handleEvent_effects (event : watcher.Event) (fw : watcher.FileWatcher)
    (w : os.World) :
  os.files (snd (watcher.handleEvent event fw w)) = os.files w
  ∧ watcher.fw_config (fst (watcher.handleEvent event fw w)) = watcher.fw_config fw
  ∧ watcher.delay (fst (watcher.handleEvent event fw w)) = watcher.delay fw
  ∧ watcher.watcher fw ⊆ watcher.watcher (fst (watcher.handleEvent event fw w))
  ∧ (∀ p, p ∈ watcher.watcher (fst (watcher.handleEvent event fw w)) →
          p ∈ watcher.watcher fw
          ∨ (p = watcher.EventName event
             ∧ config.Recursive (watcher.fw_config fw) = true
             ∧ watcher.has (watcher.Op event) watcher.Create = true
             ∧ watcher.has (watcher.Op event) watcher.Chmod = false
             ∧ os.files w !! p = Some os.Directory))
  ∧ (∃ k : nat, (k <= 2)%nat
                ∧ os.clock (snd (watcher.handleEvent event fw w))
                  = (os.clock w + Z.of_nat k * watcher.delay fw)%Z).
Proof.
  assert (Hidle : ∀ w0, os.files w0 = os.files w → os.clock w0 = os.clock w →
            os.files (snd (fw, w0)) = os.files w
            ∧ watcher.fw_config (fst (fw, w0)) = watcher.fw_config fw
            ∧ watcher.delay (fst (fw, w0)) = watcher.delay fw
            ∧ watcher.watcher fw ⊆ watcher.watcher (fst (fw, w0))
            ∧ (∀ p, p ∈ watcher.watcher (fst (fw, w0)) →
                    p ∈ watcher.watcher fw
                    ∨ (p = watcher.EventName event
                       ∧ config.Recursive (watcher.fw_config fw) = true
                       ∧ watcher.has (watcher.Op event) watcher.Create = true
                       ∧ watcher.has (watcher.Op event) watcher.Chmod = false
                       ∧ os.files w !! p = Some os.Directory))
            ∧ (∃ k : nat, (k <= 2)%nat
                          ∧ os.clock (snd (fw, w0))
                            = (os.clock w + Z.of_nat k * watcher.delay fw)%Z)).
  { intros w0 Hf Hc. cbn [fst snd].
    repeat split; [assumption | reflexivity | auto |].
    exists 0%nat. split; lia. }
  unfold watcher.handleEvent.
  destruct (watcher.has _ watcher.Chmod) eqn:Hchmod; [now apply Hidle |].
  destruct (negb _ && negb _); [now apply Hidle |].
  destruct (os.Stat w _) as [info | err] eqn:Hstat;
    [| destruct (negb (os.IsNotExist err)); now apply Hidle].
  destruct (os.IsDir info) eqn:Hdir.
  - destruct (config.Recursive _) eqn:Hrec; cbn [andb]; [| now apply Hidle].
    destruct (watcher.has _ watcher.Create) eqn:Hcreate; [| now apply Hidle].
    unfold watcher.watcher_Add.
    destruct (os.refused w _); [now apply Hidle |].
    destruct (os.files w !! watcher.EventName event) as [n|] eqn:Hn;
      [| now apply Hidle].
    apply Stat_inl in Hstat as (n' & Hn' & ->).
    assert (n = os.Directory) as ->.
    { rewrite Hn in Hn'. injection Hn' as <-. destruct n; [discriminate | reflexivity]. }
    cbn [fst snd watcher.fw_config watcher.delay watcher.watcher].
    repeat split; [apply union_subseteq_r | |].
    + intros p Hp. apply elem_of_union in Hp as [Hp | Hp]; [| auto].
      apply elem_of_singleton in Hp as ->. right. auto.
    + exists 0%nat. split; [lia |]. cbn [os.log os.clock]. lia.
  - destruct (gostrings.HasPrefix _ "."); [now apply Hidle |].
    destruct (watcher.isTempFile _); [now apply Hidle |].
    unfold watcher.IsFileReady.
    destruct (watcher.IsFileReady_loop _ 0 fw (watcher.EventName event)
                (os.log os.Debug "File event detected" w)) as [r w1] eqn:Hloop.
    apply IsFileReady_loop_bounded in Hloop as (Hf & _ & (k & Hk & Hc) & _).
    unfold watcher.maxRetries in Hk.
    destruct r; cbn [fst snd] in *;
      (repeat split; [assumption | reflexivity | auto |]);
      exists k; (split; [lia |]); cbn [os.log os.clock] in *; exact Hc.
Qed.

(* ===================================================================== *)
(** ** More on the rule matcher *)
(* ===================================================================== *)

Section MatcherMore.
Import config.

Lemma matchesExtension_lower ext l :
  processor.matchesExtension ext (List.map gostrings.ToLower l)
  = processor.matchesExtension ext l.
Proof.
  induction l as [|x l IH]; [reflexivity |].
  cbn [List.map processor.matchesExtension].
  now rewrite ToLower_idempotent, IH.
Qed.

Lemma matchesContains_lower name l :
  processor.matchesContains name (List.map gostrings.ToLower l)
  = processor.matchesContains name l.
Proof.
  induction l as [|x l IH]; [reflexivity |].
  cbn [List.map processor.matchesContains].
  now rewrite ToLower_idempotent, IH.
Qed.

Lemma matchesContainsAll_lower name l :
  processor.matchesContainsAll name (List.map gostrings.ToLower l)
  = processor.matchesContainsAll name l.
Proof.
  induction l as [|x l IH]; [reflexivity |].
  cbn [List.map processor.matchesContainsAll].
  now rewrite ToLower_idempotent, IH.
Qed.

Lemma matchesStartsWith_lower name l :
  processor.matchesStartsWith name (List.map gostrings.ToLower l)
  = processor.matchesStartsWith name l.
Proof.
  induction l as [|x l IH]; [reflexivity |].
  cbn [List.map processor.matchesStartsWith].
  now rewrite ToLower_idempotent, IH.
Qed.

Lemma rule_matchesb_lower ext name r :
  spec.rule_matchesb ext name (spec.lower_rule r) = spec.rule_matchesb ext name r.
Proof.
  unfold spec.rule_matchesb, spec.lower_rule.
  cbn [Extensions NameContains NameContainsAll NameStartsWith].
  now rewrite !List.length_map, matchesExtension_lower, matchesContains_lower,
    matchesContainsAll_lower, matchesStartsWith_lower.
Qed.

Lemma MatchRule_loop_lower ext name rules : ∀ i,
  fst <$> processor.MatchRule_loop ext name i (List.map spec.lower_rule rules)
  = fst <$> processor.MatchRule_loop ext name i rules.
Proof.
  induction rules as [|r rules IH]; intros i; [reflexivity |].
  cbn [List.map]. rewrite !MatchRule_loop_cons, rule_matchesb_lower.
  destruct (spec.rule_matchesb ext name r); [reflexivity | apply IH].
Qed.

(** X15.  The case the patterns of the rules are written in does not
    matter: two rule lists that are the same once their extensions,
    contains, contains-all and starts-with patterns are put in lower case
    pick the rule at the same position for every file. *)
Theorem MatchRule_ignores_pattern_case (filePath : string) (rules rules' : list Rule) :
  List.map spec.lower_rule rules = List.map spec.lower_rule rules' →
  fst <$> processor.MatchRule filePath rules
  = fst <$> processor.MatchRule filePath rules'.
Proof.
  intros Hsame. unfold processor.MatchRule.
  rewrite <- (MatchRule_loop_lower _ _ rules), <- (MatchRule_loop_lower _ _ rules').
  now rewrite Hsame.
Qed.

Lemma MatchRule_ignores_pattern_case_witness :
  fst <$> processor.MatchRule "/in/Report-2024.pdf"
            [examples.archives; examples.PDF_REPORTS]
  = Some 1%nat.
Proof.
  rewrite (MatchRule_ignores_pattern_case "/in/Report-2024.pdf"
             [examples.archives; examples.PDF_REPORTS]
             [examples.archives; examples.pdf_reports] eq_refl).
  reflexivity.
Defined.

(** *** The name and the extension *)

Lemma append_empty_r s : s +:+ "" = s.
Proof.
  induction s as [|c s IH]; [reflexivity |].
  change (String c (s +:+ "") = String c s). now f_equal.
Qed.

Lemma ext_from_suffix s : ∀ acc,
  (∃ a, s = a +:+ filepath.ext_from s acc) ∨ filepath.ext_from s acc = acc.
Proof.
  induction s as [|c s IH]; intros acc; [now right |].
  cbn [filepath.ext_from].
  destruct (Ascii.eqb c "/").
  - left. destruct (IH "") as [(a & Ha) | Hnone].
    + exists (String c a).
      change (String c s = String c (a +:+ filepath.ext_from s "")).
      now f_equal.
    + rewrite Hnone. exists (String c s). now rewrite append_empty_r.
  - destruct (Ascii.eqb c ".").
    + left. destruct (IH (String c s)) as [(a & Ha) | Hwhole].
      * exists (String c a).
        change (String c s = String c (a +:+ filepath.ext_from s (String c s))).
        now f_equal.
      * rewrite Hwhole. now exists "".
    + destruct (IH acc) as [(a & Ha) | Hacc]; [left | now right].
      exists (String c a).
      change (String c s = String c (a +:+ filepath.ext_from s acc)).
      now f_equal.
Qed.

(** The extension of a path is the end of the path. *)
Lemma Ext_suffix s : ∃ a, s = a +:+ filepath.Ext s.
Proof.
  unfold filepath.Ext. destruct (ext_from_suffix s "") as [H | ->]; [exact H |].
  exists s. now rewrite append_empty_r.
Qed.

Lemma ToLower_length s : String.length (gostrings.ToLower s) = String.length s.
Proof.
  induction s as [|c s IH]; [reflexivity |].
  change (S (String.length (gostrings.ToLower s)) = S (String.length s)).
  now f_equal.
Qed.

(** Trimming an end of the same length that is not the end trims
    nothing. *)
Lemma TrimSuffix_other a b b' :
  String.length b' = String.length b → b' ≠ b →
  gostrings.TrimSuffix (a +:+ b) b' = a +:+ b.
Proof.
  intros Hlen Hne. unfold gostrings.TrimSuffix, gostrings.HasSuffix. cbv zeta.
  rewrite string_length_append, Hlen.
  replace (String.length a + String.length b - String.length b)%nat
    with (String.length a) by lia.
  rewrite substring_after.
  apply not_eq_sym in Hne. apply String.eqb_neq in Hne.
  now rewrite Hne, andb_false_r.
Qed.

(** X16.  For a file whose extension has no upper-case letter, the two
    strings [MatchRule] tests the predicates on are the file name in
    lower case, cut in two before the extension: the name followed by the
    extension is the lower-cased file name, and the name is the
    lower-cased file name without its extension. *)
Theorem MatchRule_name_and_extension (filePath : string) :
  gostrings.ToLower (filepath.Ext (filepath.Base filePath))
  = filepath.Ext (filepath.Base filePath) →
  processor.MatchRule_nameWithoutExt filePath +:+ processor.MatchRule_ext filePath
  = gostrings.ToLower (filepath.Base filePath)
  ∧ processor.MatchRule_nameWithoutExt filePath
    = gostrings.ToLower
        (gostrings.TrimSuffix (filepath.Base filePath)
           (filepath.Ext (filepath.Base filePath))).
Proof.
  intros Hlower.
  unfold processor.MatchRule_nameWithoutExt, processor.MatchRule_ext. cbv zeta.
  rewrite Hlower.
  destruct (Ext_suffix (filepath.Base filePath)) as (a & Ha).
  set (e := filepath.Ext (filepath.Base filePath)) in *.
  rewrite Ha, TrimSuffix_append, ToLower_append, Hlower.
  split; reflexivity.
Qed.

Lemma MatchRule_name_and_extension_witness :
  processor.MatchRule_nameWithoutExt "/in/Report-2024.pdf"
  +:+ processor.MatchRule_ext "/in/Report-2024.pdf"
  = "report-2024.pdf".
Proof.
  destruct (MatchRule_name_and_extension "/in/Report-2024.pdf" eq_refl) as [-> _].
  reflexivity.
Defined.

(** X17.  For a file whose extension has an upper-case letter, the name
    the predicates are tested on is the whole file name in lower case,
    extension included: the lower-cased extension is not the end of the
    file name as it is spelt, and trimming it trims nothing. *)
Theorem MatchRule_name_with_uppercase_extension (filePath : string) :
  gostrings.ToLower (filepath.Ext (filepath.Base filePath))
  ≠ filepath.Ext (filepath.Base filePath) →
  processor.MatchRule_nameWithoutExt filePath
  = gostrings.ToLower (filepath.Base filePath).
Proof.
  intros Hupper.
  unfold processor.MatchRule_nameWithoutExt. cbv zeta.
  destruct (Ext_suffix (filepath.Base filePath)) as (a & Ha).
  set (e := filepath.Ext (filepath.Base filePath)) in *.
  rewrite Ha at 1 2.
  rewrite TrimSuffix_other; [reflexivity | apply ToLower_length | assumption].
Qed.

Lemma MatchRule_name_with_uppercase_extension_witness :
  processor.MatchRule_nameWithoutExt "/in/Scan.PDF" = "scan.pdf".
Proof.
  rewrite (MatchRule_name_with_uppercase_extension "/in/Scan.PDF").
  - reflexivity.
  - discriminate.
Defined.

End MatcherMore.

(* ===================================================================== *)
(** ** The subscriptions made at startup *)
(* ===================================================================== *)

Section Startup.


(** One visit of the walk: the files, the clock and the environment
    stay, the subscriptions grow, by the directory visited at most. *)
Lemma addPath_visit_effects path walkPath info fw w fw' w' :
  watcher.addPath_visit path walkPath info (fw, w) = (fw', w') →
  os.files w' = os.files w ∧ os.clock w' = os.clock w ∧ os.env w' = os.env w
  ∧ watcher.watcher fw ⊆ watcher.watcher fw'
  ∧ ∀ p, p ∈ watcher.watcher fw' →
         p ∈ watcher.watcher fw
         ∨ (p = walkPath ∧ p ≠ path
            ∧ gostrings.HasPrefix (filepath.Base p) "." = false
            ∧ ∃ i, info = inl i ∧ os.IsDir i = true).
Proof.
  unfold watcher.addPath_visit. destruct info as [i | err];
    [| intros [= <- <-]; repeat split; auto].
  destruct (os.IsDir i) eqn:Hdir; cbn [andb];
    [| intros [= <- <-]; repeat split; auto].
  destruct (gostrings.HasPrefix (filepath.Base walkPath) ".") eqn:Hhidden;
    cbn [negb]; [intros [= <- <-]; repeat split; auto |].
  destruct (String.eqb_spec walkPath path) as [Heq | Hneq]; cbn [negb];
    [intros [= <- <-]; repeat split; auto |].
  unfold watcher.watcher_Add. destruct (os.refused w _);
    [intros [= <- <-]; repeat split; auto |].
  destruct (os.files w !! walkPath); intros [= <- <-];
    [| repeat split; auto].
  cbn [watcher.watcher]. repeat split; [apply union_subseteq_r |].
  intros p Hp. apply elem_of_union in Hp as [Hp | Hp]; [| auto].
  apply elem_of_singleton in Hp as ->. right. eauto 8.
Qed.


Lemma addPath_walk_effects path visits : ∀ fw w,
  let st := List.fold_left
              (fun st v => watcher.addPath_visit path (fst v) (snd v) st)
              visits (fw, w) in
  os.files (snd st) = os.files w ∧ os.clock (snd st) = os.clock w
  ∧ os.env (snd st) = os.env w
  ∧ watcher.watcher fw ⊆ watcher.watcher (fst st)
  ∧ ∀ p, p ∈ watcher.watcher (fst st) →
         p ∈ watcher.watcher fw
         ∨ (p ≠ path ∧ gostrings.HasPrefix (filepath.Base p) "." = false
            ∧ ∃ i, (p, inl i) ∈ visits ∧ os.IsDir i = true).
Proof.
  induction visits as [|v visits IH]; intros fw w.
  { cbn. repeat split; auto. }
  cbn [List.fold_left].
  destruct (watcher.addPath_visit path (fst v) (snd v) (fw, w)) as [fw1 w1] eqn:Hv.
  apply addPath_visit_effects in Hv as (Hf & Hc & He & Hsub & Hnew).
  specialize (IH fw1 w1). cbv zeta in IH.
  destruct IH as (Hf' & Hc' & He' & Hsub' & Hnew').
  cbv zeta. rewrite Hf', Hc', He'. repeat split; [assumption .. | set_solver |].
  intros p Hp. apply Hnew' in Hp as [Hp | (Hneq & Hhidden & i & Hi & Hdir)].
  - apply Hnew in Hp as [Hp | (-> & Hneq & Hhidden & i & Hi & Hdir)]; [auto |].
    right. repeat split; auto. exists i. split; [| assumption].
    apply elem_of_cons. left. destruct v as [vp vi]. cbn in *. now rewrite Hi.
  - right. repeat split; auto. exists i. split; [| assumption].
    apply elem_of_cons. now right.
Qed.












End Startup.

(* ===================================================================== *)
(** ** The two matchers *)
(* ===================================================================== *)

Section TwoMatchers.
Import config.

Lemma MatchRule_extensions_eq ext l :
  part_000.MatchRule_extensions ext l = processor.matchesExtension ext l.
Proof. induction l as [|x l IH]; [reflexivity |]. cbn. now rewrite IH. Qed.

Lemma ToLower_empty s : gostrings.ToLower s = "" → s = "".
Proof. destruct s; [reflexivity | discriminate]. Qed.

Lemma rule_matchesb_by_extension ext name r :
  spec.by_extension_only r →
  spec.rule_matchesb ext name r = processor.matchesExtension ext (Extensions r).
Proof.
  intros (Hexts & _ & Hc & Ha & Hs). unfold spec.rule_matchesb.
  rewrite Hc, Ha, Hs. cbn [List.length Nat.eqb orb].
  destruct (Extensions r); [contradiction |].
  cbn [List.length Nat.eqb orb]. now rewrite !andb_true_r.
Qed.

(** X19.  On rules that go by extension alone (a non-empty extension
    list without the empty extension, no pattern on the name), the
    matcher of [rules.go] and the matcher by extension pick the same rule
    for every file; for a file without extension both pick none. *)
Theorem MatchRule_agrees_with_matcher_by_extension
    (rules : list Rule) (filePath : string) :
  (∀ r, r ∈ rules → spec.by_extension_only r) →
  processor.MatchRule filePath rules = part_000.MatchRule filePath rules
  ∧ (filepath.Ext (filepath.Base filePath) = "" →
     processor.MatchRule filePath rules = None).
Proof.
  intros Hrules.
  assert (Hnone : processor.MatchRule_ext filePath = "" →
                  processor.MatchRule filePath rules = None).
  { intros Hext. unfold processor.MatchRule. apply MatchRule_loop_None.
    intros r Hr. rewrite rule_matchesb_by_extension by auto.
    destruct (processor.matchesExtension _ _) eqn:Hm; [| reflexivity].
    apply matchesExtension_spec in Hm as (e & He & Heq).
    unfold processor.MatchRule_ext in Hext. cbv zeta in Hext.
    rewrite Hext in Heq. symmetry in Heq. apply ToLower_empty in Heq as ->.
    destruct (Hrules r Hr) as (_ & Hempty & _). contradiction. }
  split.
  - unfold part_000.MatchRule. cbv zeta.
    destruct (String.eqb_spec
                (gostrings.ToLower (filepath.Ext (filepath.Base filePath))) "")
      as [Hext | Hext]; [now apply Hnone |].
    unfold processor.MatchRule.
    generalize 0%nat as i. clear Hnone.
    induction rules as [|r rules IH]; intros i; [reflexivity |].
    rewrite MatchRule_loop_cons.
    rewrite (rule_matchesb_by_extension _ _ r) by (apply Hrules; now left).
    cbn [part_000.MatchRule_loop].
    rewrite <- (MatchRule_extensions_eq _ (Extensions r)).
    destruct (part_000.MatchRule_extensions _ _); [reflexivity |].
    apply IH. intros r' Hr'. apply Hrules. now right.
  - intros Hext. apply Hnone. unfold processor.MatchRule_ext. cbv zeta.
    now rewrite Hext.
Qed.

Lemma MatchRule_agrees_with_matcher_by_extension_witness :
  processor.MatchRule "/in/Backup.ZIP" [examples.archives]
  = part_000.MatchRule "/in/Backup.ZIP" [examples.archives].
Proof.
  apply (MatchRule_agrees_with_matcher_by_extension [examples.archives] "/in/Backup.ZIP").
  intros r Hr. apply list_elem_of_singleton in Hr as ->.
  unfold spec.by_extension_only. repeat split; try discriminate.
  intros Hin. apply list_elem_of_singleton in Hin. discriminate.
Defined.

End TwoMatchers.

(* ===================================================================== *)
(** ** From the job to the destination, and the making of a watcher *)
(* ===================================================================== *)

Section EndToEnd.
Import config.

(** A move without conflict, the rename being granted. *)
Lemma MoveFile_no_conflict_moves src destDir strategy w sinfo err :
  os.Stat w (filepath.Join destDir (filepath.Base src)) = inr err →
  filepath.Join destDir (filepath.Base src) ≠ destDir →
  os.Stat w src = inl sinfo → os.IsDir sinfo = false →
  fst (os.MkdirAll destDir w) = None →
  os.refused w (os.CRename src (filepath.Join destDir (filepath.Base src))) = None →
  ∃ w', processor.MoveFile src destDir strategy w = (None, w')
        ∧ os.files w' !! filepath.Join destDir (filepath.Base src) = os.files w !! src
        ∧ os.files w' !! src = None
        ∧ os.out w' = (os.out w ++ [os.Log os.Debug "Starting file move";
                         os.Log os.Debug "Ensuring destination directory exists";
                         os.Log os.Debug "Destination directory ready";
                         os.Log os.Debug "Attempting to move file";
                         os.Log os.Info "File moved successfully"])%list.
Proof.
  intros Hdst Hne Hs Hd Hmk Hren.
  set (dst := filepath.Join destDir (filepath.Base src)) in *.
  destruct (Stat_inl _ _ _ Hs) as (n & Hn & Hinfo).
  assert (Hsd : src ≠ destDir).
  { intros Heq. rewrite <- Heq in Hmk. unfold os.MkdirAll in Hmk.
    destruct (os.refused w _); [discriminate |].
    rewrite Hn in Hmk. subst sinfo. destruct n; discriminate. }
  assert (Hsrc_dst : src ≠ dst).
  { intros Heq. rewrite <- Heq in Hdst. congruence. }
  unfold processor.MoveFile.
  rewrite (MoveFile_destination_no_conflict _ _ _ _ err) by assumption.
  rewrite Hs, Hd, !MkdirAll_log, Hmk.
  destruct (os.MkdirAll destDir w) as [r w1] eqn:Hmk1.
  apply MkdirAll_frame in Hmk1 as (Hc & He & Ho & Hf).
  unfold processor.MoveFile_relocate. world_simpl.
  rewrite (Rename_granted _ _ _ n).
  - eexists. split; [reflexivity |]. world_simpl.
    rewrite lookup_insert_eq, lookup_insert_ne, lookup_delete_eq by auto.
    split; [symmetry; assumption |]. split; [reflexivity |].
    rewrite Ho, <- !app_assoc. reflexivity.
  - unfold os.refused in *. world_simpl. now rewrite Hc, He.
  - world_simpl. now rewrite Hf.
Qed.

(** X20.  From the job to the destination: when the file of a job
    matches a rule, is a regular file, nothing is at
    [Destination/filename], the destination directory exists or can be
    made and the rename is granted, the worker leaves the file under
    [Destination/filename] of the first matching rule, no longer under
    its old path, and logs the job as completed. *)
Theorem worker_job_moves_matching_file
    (job : watcher.Job) (i : nat) (rule : Rule) (w : os.World)
    (sinfo : os.FileInfo) (err : os.error) :
  let src := watcher.FilePath job in
  let dst := filepath.Join (Destination rule) (filepath.Base src) in
  processor.MatchRule src (watcher.JobRules job) = Some (i, rule) →
  os.Stat w src = inl sinfo → os.IsDir sinfo = false →
  os.Stat w dst = inr err → dst ≠ Destination rule →
  fst (os.MkdirAll (Destination rule) w) = None →
  os.refused w (os.CRename src dst) = None →
  os.files (watcher.worker_job job w) !! dst = os.files w !! src
  ∧ os.files (watcher.worker_job job w) !! src = None
  ∧ last (os.out (watcher.worker_job job w))
    = Some (os.Log os.Info "Worker completed job").
Proof.
  intros src dst Hmatch Hs Hd Hdst Hne Hmk Hren.
  unfold watcher.worker_job. fold src. rewrite Hmatch.
  destruct (MoveFile_no_conflict_moves src (Destination rule) (ConflictStrategy rule)
              (os.log os.Info "Worker matched rule"
                 (os.log os.Debug "Worker processing file" w)) sinfo err)
    as (w' & -> & Hfdst & Hfsrc & _); try assumption.
  - now rewrite !MkdirAll_log.
  - cbn [os.log os.files os.out]. subst dst. rewrite Hfdst, Hfsrc.
    split; [reflexivity |]. split; [reflexivity |]. apply last_snoc.
Qed.

Lemma worker_job_moves_matching_file_witness :
  os.files (watcher.worker_job examples.a_pdf_job
              (examples.world examples.inbox_files (examples.refusing [])))
  !! "/out/a.pdf"
  = Some (os.File "new bytes" 420).
Proof.
  destruct (worker_job_moves_matching_file examples.a_pdf_job 1
              (examples.rule [".pdf"] [] [] [] "/out" "rename")
              (examples.world examples.inbox_files (examples.refusing []))
              (os.info_of (os.File "new bytes" 420))
              (os.PathError "stat" "/out/a.pdf" os.ENOENT))
    as (Hdst & _);
    [reflexivity | reflexivity | reflexivity | reflexivity | discriminate
    | reflexivity | reflexivity |].
  exact (eq_trans Hdst eq_refl).
Defined.

(** X21.  A watcher is made exactly when the kernel gives an inotify
    instance and the source path can be watched: when the instance is
    refused, [NewFileWatcher] returns that error, wrapped as the failure
    to create the watcher; when the subscription to the source path is
    refused or the path names nothing, it returns that error, wrapped as
    the failure to watch the path; both leave the world as it was.
    Otherwise it returns a watcher of the monitor, with the delay,
    subscribed to the source path, the files being as they were, and a
    watcher that is not recursive is subscribed to nothing else. *)
Theorem NewFileWatcher_outcomes (monitor : Monitor) (delay : Z) (w : os.World) :
  (∀ e, os.refused w os.CInotifyInit = Some e →
        watcher.NewFileWatcher monitor delay w
        = (inr (os.Wrapf "failed to create fsnotify watcher" (os.SyscallErrno e)), w))
  ∧ (os.refused w os.CInotifyInit = None →
     os.refused w (os.CWatch (SourcePath monitor)) ≠ None
     ∨ os.files w !! SourcePath monitor = None →
     ∃ err, watcher.NewFileWatcher monitor delay w
            = (inr (os.Wrapf "failed to watch path" err), w))
  ∧ (os.refused w os.CInotifyInit = None →
     os.refused w (os.CWatch (SourcePath monitor)) = None →
     is_Some (os.files w !! SourcePath monitor) →
     ∃ fw w', watcher.NewFileWatcher monitor delay w = (inl fw, w')
              ∧ watcher.fw_config fw = monitor ∧ watcher.delay fw = delay
              ∧ SourcePath monitor ∈ watcher.watcher fw
              ∧ os.files w' = os.files w
              ∧ (Recursive monitor = false
                 → watcher.watcher fw = {[SourcePath monitor]})).
Proof.
  unfold watcher.NewFileWatcher, watcher.fsnotify_NewWatcher, watcher.addPath,
    watcher.watcher_Add.
  split; [| split].
  - intros e ->. reflexivity.
  - intros -> [Hrefused | Hmissing].
    + destruct (os.refused w _); [eauto | contradiction].
    + destruct (os.refused w _); [eauto |]. rewrite Hmissing. eauto.
  - intros -> Hgranted [n Hn]. rewrite Hgranted, Hn.
    destruct (Recursive monitor).
    + pose proof (addPath_walk_effects (SourcePath monitor)
                    (watcher.Walk_visits (os.log os.Debug "Watching path" w)
                       (SourcePath monitor))
                    {| watcher.fw_config := monitor;
                       watcher.watcher := {[SourcePath monitor]} ∪ ∅;
                       watcher.delay := delay |}
                    (os.log os.Debug "Watching path" w))
        as (Hf & _ & _ & Hsub & _).
      cbv zeta in Hf, Hsub.
      destruct (List.fold_left _ _ _) as [fw' w'] eqn:Hwalk.
      exists fw', w'. split; [reflexivity |]. cbn [fst snd] in *.
      assert (Hkept : watcher.fw_config fw' = monitor ∧ watcher.delay fw' = delay).
      { revert Hwalk. clear.
        generalize (watcher.Walk_visits (os.log os.Debug "Watching path" w)
                      (SourcePath monitor)) as visits.
        generalize (os.log os.Debug "Watching path" w) as w0.
        generalize ({[SourcePath monitor]} ∪ ∅ : gset string) as set0.
        intros set0 w0 visits. revert set0 w0.
        induction visits as [|v visits IH]; intros set0 w0.
        - intros [= <- _]. auto.
        - cbn [List.fold_left].
          unfold watcher.addPath_visit at 2, watcher.watcher_Add.
          destruct (snd v) as [info | e]; [| apply IH].
          destruct (os.IsDir info && negb _); [| apply IH].
          destruct (negb _); [| apply IH].
          destruct (os.refused w0 _); [apply IH |].
          destruct (os.files w0 !! fst v); apply IH. }
      destruct Hkept as [-> ->].
      repeat split; [| assumption | discriminate].
      apply Hsub. cbn [watcher.watcher].
      apply elem_of_union_l, elem_of_singleton. reflexivity.
    + eexists _, _. split; [reflexivity |].
      cbn [watcher.fw_config watcher.delay watcher.watcher os.log os.files].
      repeat split.
      * apply elem_of_union_l, elem_of_singleton. reflexivity.
      * intros _. apply union_empty_r_L.
Qed.

End EndToEnd.

(** A watcher of [/in] that is not recursive, and one the kernel has
    no inotify instance for. *)
Lemma NewFileWatcher_outcomes_witness :
  (∃ fw w', watcher.NewFileWatcher (examples.inbox false) 2000000000
              (examples.world examples.inbox_files (examples.refusing []))
            = (inl fw, w')
            ∧ watcher.watcher fw = {["/in"]})
  ∧ fst (watcher.NewFileWatcher (examples.inbox false) 2000000000
           (examples.world examples.inbox_files examples.no_inotify))
    = inr (os.Wrapf "failed to create fsnotify watcher" (os.SyscallErrno os.EMFILE)).
Proof.
  split.
  - destruct (NewFileWatcher_outcomes (examples.inbox false) 2000000000
                (examples.world examples.inbox_files (examples.refusing [])))
      as (_ & _ & Hmade).
    destruct (Hmade eq_refl eq_refl (ex_intro _ os.Directory eq_refl))
      as (fw & w' & Hnew & _ & _ & _ & _ & Honly).
    exists fw, w'. split; [exact Hnew | exact (Honly eq_refl)].
  - destruct (NewFileWatcher_outcomes (examples.inbox false) 2000000000
                (examples.world examples.inbox_files examples.no_inotify))
      as (Hnone & _).
    exact (f_equal fst (Hnone os.EMFILE eq_refl)).
Defined.
